(** * BrainWave planner: parser, time utilities, schedule store, reminders

    A shallow embedding of the planner core of the repository:
    - [parsePlannerContent]  (services/geminiService.ts),
    - [parseTime] and the notification effect (components/PlannerDisplay.tsx),
    - the schedule handlers of [App] (App.tsx).

    Conventions of the embedding.
    - A JavaScript string is the list of its UTF-16 code units ([list N]).
    - A JavaScript [number] that the code uses as a block id, an array index
      or a count of minutes is an integer ([Z]); all values the program
      manipulates stay far below 2^53, where the two agree.
    - A [Date] is its time value in milliseconds ([Z]).  Daylight-saving
      jumps of the local calendar are not modelled: [setHours] adds hours and
      minutes to the local midnight of the current day.
    - An array is a [list]; an object used as a dictionary is a [gmap]. *)

From Stdlib Require Import ZArith NArith Ascii String List Lia Bool.
From stdpp Require Import base option list gmap pretty.

Local Open Scope Z_scope.

(** ** JavaScript strings *)

Module JsString.

Definition char := N.
Definition jsstring := list char.

(** String literals of the source, read as code units. *)
Definition lit (s : string) : jsstring :=
  map N_of_ascii (list_ascii_of_string s).

(** WhiteSpace and LineTerminator of ECMAScript: what [String.prototype.trim]
    strips and what the class [\s] matches. *)
Definition isLineTerminator (c : char) : bool :=
  ((c =? 10) || (c =? 13) || (c =? 8232) || (c =? 8233))%N.

Definition isWhiteSpace (c : char) : bool :=
  ((c =? 9) || (c =? 11) || (c =? 12) || (c =? 32) || (c =? 160)
   || (c =? 5760) || ((8192 <=? c) && (c <=? 8202)) || (c =? 8239)
   || (c =? 8287) || (c =? 12288) || (c =? 65279)
   || isLineTerminator c)%N.

(** The class [\d]. *)
Definition isDigit (c : char) : bool := ((48 <=? c) && (c <=? 57))%N.

Fixpoint dropWhile {A} (p : A -> bool) (l : list A) : list A :=
  match l with
  | [] => []
  | x :: l' => if p x then dropWhile p l' else l
  end.

Fixpoint takeWhile {A} (p : A -> bool) (l : list A) : list A :=
  match l with
  | [] => []
  | x :: l' => if p x then x :: takeWhile p l' else []
  end.

Definition trimStart (s : jsstring) : jsstring := dropWhile isWhiteSpace s.
Definition trimEnd (s : jsstring) : jsstring :=
  rev (dropWhile isWhiteSpace (rev s)).
Definition trim (s : jsstring) : jsstring := trimEnd (trimStart s).

Definition isEmpty (s : jsstring) : bool :=
  match s with [] => true | _ => false end.

Fixpoint eqb (s t : jsstring) : bool :=
  match s, t with
  | [], [] => true
  | c :: s', d :: t' => (c =? d)%N && eqb s' t'
  | _, _ => false
  end.

Fixpoint startsWith (p s : jsstring) : bool :=
  match p, s with
  | [], _ => true
  | c :: p', d :: s' => (c =? d)%N && startsWith p' s'
  | _ :: _, [] => false
  end.

(** [s.includes(p)] *)
Fixpoint includes (p s : jsstring) : bool :=
  startsWith p s ||
  match s with
  | [] => false
  | _ :: s' => includes p s'
  end.

(** [s.split(sep)] for a non-empty separator: the input is scanned from the
    left, every occurrence of [sep] closes the current fragment and the
    scan resumes after it.  [skip] counts the code units of a matched
    separator that are still to be passed over. *)
Fixpoint splitFrom (sep : jsstring) (skip : nat) (s : jsstring)
  : list jsstring :=
  match s with
  | [] => [[]]
  | c :: s' =>
      match skip with
      | S k => splitFrom sep k s'
      | O =>
          if startsWith sep s
          then [] :: splitFrom sep (Nat.pred (length sep)) s'
          else match splitFrom sep O s' with
               | frag :: frags => (c :: frag) :: frags
               | [] => [[c]]
               end
      end
  end.

Definition split (sep s : jsstring) : list jsstring := splitFrom sep O s.

(** [parts.join(sep)] *)
Fixpoint join (sep : jsstring) (parts : list jsstring) : jsstring :=
  match parts with
  | [] => []
  | [p] => p
  | p :: ps => p ++ sep ++ join sep ps
  end.

(** [parseInt(s, 10)] on a string of decimal digits. *)
Definition digitValue (c : char) : Z := Z.of_N c - 48.
Definition parseInt (s : jsstring) : Z :=
  fold_left (fun acc c => 10 * acc + digitValue c) s 0.

(** Number-to-string conversion inside a template literal, for integers. *)
Definition numberToString (z : Z) : jsstring := lit (pretty z).

End JsString.
Import JsString.

Definition c_star : char := 42%N.
Definition c_dash : char := 45%N.
Definition c_colon : char := 58%N.
Definition c_newline : char := 10%N.
Definition c_A : char := 65%N.
Definition c_M : char := 77%N.
Definition c_P : char := 80%N.
Definition c_a : char := 97%N.
Definition c_m : char := 109%N.
Definition c_p : char := 112%N.

(** ** types.ts *)

Record Task := mkTask { text : jsstring; notes : jsstring }.

(** An element of a [tasks] array.  The type says [Task], but a splice with
    an out-of-range source index stores [undefined] there, and a JSON round
    trip turns that [undefined] into [null]. *)
Inductive entry :=
| Present (t : Task)
| Undefined
| Null.

Record ScheduleBlock := mkBlock {
  id : Z;
  time : jsstring;
  title : jsstring;
  tasks : list entry
}.

Definition Schedule := list ScheduleBlock.

(** ** Exceptions *)

Inductive exn := TypeError.

Inductive result (A : Type) :=
| Ok (a : A)
| Throw (e : exn).
Arguments Ok {A} a.
Arguments Throw {A} e.

Definition rbind {A B} (r : result A) (k : A -> result B) : result B :=
  match r with
  | Ok a => k a
  | Throw e => Throw e
  end.

Notation "x <-- r ;; k" := (rbind r (fun x => k))
  (at level 100, r at next level, right associativity).

(** [array.map((x, index) => f)] with a callback that may throw. *)
Fixpoint mapIndexed {A B} (f : A -> nat -> result B) (i : nat) (l : list A)
  : result (list B) :=
  match l with
  | [] => Ok []
  | x :: l' =>
      y <-- f x i ;;
      ys <-- mapIndexed f (S i) l' ;;
      Ok (y :: ys)
  end.

(** ** services/geminiService.ts: parsePlannerContent *)

Module Parser.

(** The header pattern of the source is, written with spaces between its
    parts,  ( . * (?:AM|PM) )  \s *  :  \s *  ( . * ) .
    [headerTail] is what remains once the first greedy run has stopped:
    the letters AM or PM, white space, a colon, white space, and the rest
    of the line as group 2.  It returns the two letters and group 2. *)
Definition headerTail (s : jsstring) : option (jsstring * jsstring) :=
  match s with
  | a :: m :: t =>
      if (((a =? c_A) || (a =? c_P)) && (m =? c_M))%N
      then match dropWhile isWhiteSpace t with
           | c :: t2 =>
               if (c =? c_colon)%N
               then Some ([a; m],
                          takeWhile (fun x => negb (isLineTerminator x))
                                    (dropWhile isWhiteSpace t2))
               else None
           | [] => None
           end
      else None
  | _ => None
  end.

(** The whole pattern anchored at the head of [s].  The greedy run first
    tries to take one more code unit (never a line terminator) and falls
    back to stopping where it stands. *)
Fixpoint headerAt (s : jsstring) : option (jsstring * jsstring) :=
  match s with
  | [] => None
  | c :: s' =>
      match (if isLineTerminator c then None else headerAt s') with
      | Some (g1, g2) => Some (c :: g1, g2)
      | None => headerTail s
      end
  end.

(** [timeAndTitle.match(header pattern)]: the leftmost start position at
    which the pattern matches; groups 1 and 2. *)
Fixpoint headerMatch (s : jsstring) : option (jsstring * jsstring) :=
  match headerAt s with
  | Some r => Some r
  | None =>
      match s with
      | [] => None
      | _ :: s' => headerMatch s'
      end
  end.

(** [line.replace] of a leading bullet ( a star or a dash at the very
    start of the line ) and the white space after it by the empty string. *)
Definition stripBullet (line : jsstring) : jsstring :=
  match line with
  | c :: rest =>
      if ((c =? c_star) || (c =? c_dash))%N
      then dropWhile isWhiteSpace rest
      else line
  | [] => []
  end.

Definition parseTasks (taskLines : list jsstring) : list entry :=
  map (fun taskText => Present (mkTask taskText []))
    (List.filter (fun taskText => negb (isEmpty taskText))
       (map (fun line => trim (stripBullet line)) taskLines)).

(** The two-stage extraction of [time] and [title]. *)
Definition timeTitle (timeAndTitle : jsstring) : jsstring * jsstring :=
  let fallback :=
    match split [c_colon] timeAndTitle with
    | first :: parts => (trim first, trim (join [c_colon] parts))
    | [] => ([], trim [])
    end in
  match headerMatch timeAndTitle with
  | Some (g1, g2) =>
      if negb (isEmpty g1) && negb (isEmpty g2)
      then (trim g1, trim g2)
      else fallback
  | None => fallback
  end.

(** The callback of [blocks.map].  [lines[0]] of an empty array would be
    [undefined], and calling [match] on it throws. *)
Definition parseBlock (block : jsstring) (index : nat) : result ScheduleBlock :=
  let lines := split [c_newline] (trim block) in
  match lines with
  | [] => Throw TypeError
  | timeAndTitle :: taskLines =>
      let '(time, title) := timeTitle timeAndTitle in
      Ok (mkBlock (Z.of_nat index) time title (parseTasks taskLines))
  end.

Definition isBlockFragment (block : jsstring) : bool :=
  negb (isEmpty (trim block)) && includes [c_colon] block.

Definition fragments (content : jsstring) : list jsstring :=
  List.filter isBlockFragment (split [c_star; c_star] content).

Definition parsePlannerContent (content : jsstring) : result Schedule :=
  if isEmpty content then Ok []
  else mapIndexed parseBlock O (fragments content).

End Parser.
Import Parser.

(** ** components/PlannerDisplay.tsx: parseTime *)

Module TimeUtil.

Definition isMeridiemLetter (c : char) : bool :=
  ((c =? c_A) || (c =? c_a) || (c =? c_P) || (c =? c_p))%N.
Definition isLetterM (c : char) : bool := ((c =? c_M) || (c =? c_m))%N.

(** The time pattern of the source is one or two digits, a colon, two
    digits, white space, and AM or PM in either case.  [timeRest] is the
    pattern after the hour digits. *)
Definition timeRest (hours s : jsstring)
  : option (jsstring * jsstring * jsstring) :=
  match s with
  | c :: m1 :: m2 :: t =>
      if ((c =? c_colon)%N && isDigit m1 && isDigit m2)%bool
      then match dropWhile isWhiteSpace t with
           | a :: m :: _ =>
               if (isMeridiemLetter a && isLetterM m)%bool
               then Some (hours, [m1; m2], [a; m])
               else None
           | _ => None
           end
      else None
  | _ => None
  end.

(** The pattern anchored at the head of [s]: the greedy hour group takes
    two digits when it can and is retried with one. *)
Definition timeAt (s : jsstring) : option (jsstring * jsstring * jsstring) :=
  let two :=
    match s with
    | d1 :: d2 :: t =>
        if (isDigit d1 && isDigit d2)%bool then timeRest [d1; d2] t else None
    | _ => None
    end in
  match two with
  | Some r => Some r
  | None =>
      match s with
      | d1 :: t => if isDigit d1 then timeRest [d1] t else None
      | [] => None
      end
  end.

(** [str.match(time pattern)]: leftmost match; hours, minutes, period. *)
Fixpoint timeMatch (s : jsstring) : option (jsstring * jsstring * jsstring) :=
  match timeAt s with
  | Some r => Some r
  | None =>
      match s with
      | [] => None
      | _ :: s' => timeMatch s'
      end
  end.

(** [toUpperCase] on the letters a period can hold. *)
Definition toUpperCase (s : jsstring) : jsstring :=
  map (fun c => if ((97 <=? c) && (c <=? 122))%N then (c - 32)%N else c) s.

(** The hour and minute arguments that [parseTime] hands to [setHours];
    [None] is the [null] result. *)
Definition parseClock (timeStr : jsstring) : option (Z * Z) :=
  if isEmpty timeStr then None
  else
    match timeMatch (trim timeStr) with
    | None => None
    | Some (hours, minutes, period) =>
        let h := parseInt hours in
        let h := if eqb (toUpperCase period) (lit "PM") && (h <? 12)
                 then h + 12 else h in
        let h := if eqb (toUpperCase period) (lit "AM") && (h =? 12)
                 then 0 else h in
        Some (h, parseInt minutes)
    end.

(** [date.setHours(h, m, 0, 0)] on a date of the day that starts at the
    instant [today]. *)
Definition setHours (today h m : Z) : Z := today + h * 3600000 + m * 60000.

(** [date.getHours()] for a date of the day that starts at [today]. *)
Definition getHours (today date : Z) : Z := ((date - today) / 3600000) mod 24.

Definition parseTime (today : Z) (timeStr : jsstring) : option Z :=
  match parseClock timeStr with
  | Some (h, m) => Some (setHours today h m)
  | None => None
  end.

End TimeUtil.
Import TimeUtil.

(** ** App.tsx: the schedule handlers *)

Module Store.

Record TaskRef := mkRef { blockId : Z; taskIndex : Z }.

(** [JSON.parse(JSON.stringify(schedule))]: strings and integers come back
    as they were, [undefined] inside an array comes back as [null]. *)
Definition jsonEntry (e : entry) : entry :=
  match e with
  | Present t => Present t
  | Undefined | Null => Null
  end.

Definition withTasks (block : ScheduleBlock) (newTasks : list entry)
  : ScheduleBlock :=
  mkBlock (id block) (time block) (title block) newTasks.

Definition jsonBlock (block : ScheduleBlock) : ScheduleBlock :=
  withTasks block (map jsonEntry (tasks block)).

Definition jsonCopy (s : Schedule) : Schedule := map jsonBlock s.

(** [schedule.find(b => b.id === blockId)]: the position of the first
    block with that id, the handle through which the handlers mutate. *)
Fixpoint findBlock (blockId : Z) (s : Schedule) : option nat :=
  match s with
  | [] => None
  | b :: s' =>
      if id b =? blockId then Some O
      else match findBlock blockId s' with
           | Some i => Some (S i)
           | None => None
           end
  end.

(** [array[index]] for an integer index; [None] is [undefined]. *)
Definition arrayGet {A} (l : list A) (index : Z) : option A :=
  if index <? 0 then None else l !! Z.to_nat index.

(** The start position [splice] computes from its first argument. *)
Definition relativeStart (start : Z) (len : nat) : nat :=
  if start <? 0 then Z.to_nat (Z.max (Z.of_nat len + start) 0)
  else Z.to_nat (Z.min start (Z.of_nat len)).

(** [array.splice(start, 1)]: the removed elements and the array left. *)
Definition spliceRemoveOne {A} (start : Z) (l : list A) : list A * list A :=
  let k := relativeStart start (length l) in
  (take 1 (drop k l), take k l ++ drop (S k) l).

(** [array.splice(start, 0, x)] *)
Definition spliceInsert {A} (start : Z) (x : A) (l : list A) : list A :=
  let k := relativeStart start (length l) in
  take k l ++ x :: drop k l.

(** [array.filter((x, index) => p)] *)
Fixpoint filterIndexed {A} (p : A -> nat -> bool) (i : nat) (l : list A)
  : list A :=
  match l with
  | [] => []
  | x :: l' =>
      if p x i then x :: filterIndexed p (S i) l'
      else filterIndexed p (S i) l'
  end.

Definition setTasksAt (i : nat) (newTasks : list entry) (s : Schedule)
  : Schedule :=
  match s !! i with
  | Some b => <[i := withTasks b newTasks]> s
  | None => s
  end.

Definition tasksAt (i : nat) (s : Schedule) : list entry :=
  match s !! i with
  | Some b => tasks b
  | None => []
  end.

(** The updater of [handleUpdateTaskText] and [handleUpdateTaskNotes];
    [change] is the assignment to the task found. *)
Definition updateTask (change : Task -> Task) (blockId taskIndex : Z)
    (currentSchedule : option Schedule) : option Schedule :=
  match currentSchedule with
  | None => None
  | Some currentSchedule =>
      let newSchedule := jsonCopy currentSchedule in
      match findBlock blockId newSchedule with
      | Some i =>
          match arrayGet (tasksAt i newSchedule) taskIndex with
          | Some (Present t) =>
              Some (setTasksAt i
                      (<[Z.to_nat taskIndex := Present (change t)]>
                         (tasksAt i newSchedule))
                      newSchedule)
          | _ => Some newSchedule
          end
      | None => Some newSchedule
      end
  end.

Definition updateTaskText (blockId taskIndex : Z) (newText : jsstring) :=
  updateTask (fun t => mkTask newText (notes t)) blockId taskIndex.

Definition updateTaskNotes (blockId taskIndex : Z) (newNotes : jsstring) :=
  updateTask (fun t => mkTask (text t) newNotes) blockId taskIndex.

(** The updater of [handleDeleteTask]. *)
Definition deleteTask (blockId taskIndex : Z)
    (currentSchedule : option Schedule) : option Schedule :=
  match currentSchedule with
  | None => None
  | Some currentSchedule =>
      Some (map (fun block =>
                   if id block =? blockId
                   then withTasks block
                          (filterIndexed
                             (fun _ index => negb (Z.of_nat index =? taskIndex))
                             O (tasks block))
                   else block)
                currentSchedule)
  end.

(** The updater of [handleReorderTasks].  Both blocks are looked up in the
    deep copy; the two splices run one after the other on that copy, so
    the second one sees the first when both handles name one block. *)
Definition reorderTask (source destination : TaskRef)
    (currentSchedule : option Schedule) : option Schedule :=
  match currentSchedule with
  | None => None
  | Some currentSchedule =>
      let newSchedule := jsonCopy currentSchedule in
      match findBlock (blockId source) newSchedule,
            findBlock (blockId destination) newSchedule with
      | Some i, Some j =>
          let '(removed, rest) :=
            spliceRemoveOne (taskIndex source) (tasksAt i newSchedule) in
          let removedTask :=
            match removed with
            | e :: _ => e
            | [] => Undefined
            end in
          let afterRemoval := setTasksAt i rest newSchedule in
          Some (setTasksAt j
                  (spliceInsert (taskIndex destination) removedTask
                     (tasksAt j afterRemoval))
                  afterRemoval)
      | _, _ => Some currentSchedule
      end
  end.

(** The composite key of a task in the completion map. *)
Definition taskId (blockId : Z) (taskIndex : nat) : jsstring :=
  numberToString blockId ++ [c_dash] ++ numberToString (Z.of_nat taskIndex).

(** [completedTasks[taskId]] read as a condition. *)
Definition isCompleted (completedTasks : gmap jsstring bool)
    (blockId : Z) (taskIndex : nat) : bool :=
  match completedTasks !! taskId blockId taskIndex with
  | Some b => b
  | None => false
  end.

(** The updater of [handleClearCompletedTasks]. *)
Definition clearCompletedTasks (completedTasks : gmap jsstring bool)
    (currentSchedule : option Schedule) : option Schedule :=
  match currentSchedule with
  | None => None
  | Some currentSchedule =>
      Some (map (fun block =>
                   withTasks block
                     (filterIndexed
                        (fun _ taskIndex =>
                           negb (isCompleted completedTasks (id block) taskIndex))
                        O (tasks block)))
                currentSchedule)
  end.

(** The state of [App] that the planner core reads and writes. *)
Inductive message :=
| ErrorMessage (m : jsstring)
| EngineMessage (e : exn).

Record AppState := mkApp {
  schedule : option Schedule;
  completedTasks : gmap jsstring bool;
  isLoading : bool;
  error : option message
}.

(** What awaiting [generatePlannerSchedule] gives: the markdown text, or
    the [Error] it throws after catching any failure of the service. *)
Inductive generation :=
| Generated (content : jsstring)
| Failed (m : jsstring).

(** [handleGenerate] up to the [await]. *)
Definition generateStart (st : AppState) : AppState :=
  mkApp None ∅ true None.

(** [handleGenerate] from the [await] on: the [try] body, the [catch]
    clause and the [finally] clause. *)
Definition generateFinish (g : generation) (st : AppState) : AppState :=
  match g with
  | Generated generatedContent =>
      match parsePlannerContent generatedContent with
      | Ok parsedSchedule =>
          mkApp (Some parsedSchedule) (completedTasks st) false (error st)
      | Throw e =>
          mkApp (schedule st) (completedTasks st) false
                (Some (EngineMessage e))
      end
  | Failed m =>
      mkApp (schedule st) (completedTasks st) false (Some (ErrorMessage m))
  end.

Definition handleGenerate (g : generation) (st : AppState) : AppState :=
  generateFinish g (generateStart st).

Definition setSchedule (f : option Schedule -> option Schedule)
    (st : AppState) : AppState :=
  mkApp (f (schedule st)) (completedTasks st) (isLoading st) (error st).

Definition handleUpdateTaskText blockId taskIndex newText :=
  setSchedule (updateTaskText blockId taskIndex newText).
Definition handleUpdateTaskNotes blockId taskIndex newNotes :=
  setSchedule (updateTaskNotes blockId taskIndex newNotes).
Definition handleDeleteTask blockId taskIndex :=
  setSchedule (deleteTask blockId taskIndex).
Definition handleReorderTasks source destination :=
  setSchedule (reorderTask source destination).

(** The filter reads the completion map of the current render; the map is
    reset afterwards. *)
Definition handleClearCompletedTasks (st : AppState) : AppState :=
  mkApp (clearCompletedTasks (completedTasks st) (schedule st))
        ∅ (isLoading st) (error st).

End Store.
Import Store.

(** ** components/PlannerDisplay.tsx: the notification effect *)

Module Reminder.

Record Notification := mkNotification {
  heading : jsstring;
  body : jsstring
}.

(** One firing: [onNotify()], [new Notification(...)] and the request to
    add the block id to [notifiedBlockIds]. *)
Record firing := mkFiring {
  firedId : Z;
  shown : Notification
}.

(** [block.tasks[0]?.text || 'Get ready!'] *)
Definition firstTaskText (block : ScheduleBlock) : jsstring :=
  match tasks block with
  | Present t :: _ => if isEmpty (text t) then lit "Get ready!" else text t
  | _ => lit "Get ready!"
  end.

Definition notificationFor (reminderTime : Z) (block : ScheduleBlock)
  : Notification :=
  mkNotification
    (lit "Upcoming: " ++ title block)
    (lit "Starts in " ++ numberToString reminderTime ++
     lit " min. First task: " ++ firstTaskText block).

(** [parseTime(block.time.split('-')[0])] *)
Definition startTimeOf (today : Z) (block : ScheduleBlock) : option Z :=
  match split [c_dash] (time block) with
  | timePart :: _ => parseTime today timePart
  | [] => None
  end.

(** The body of the [forEach] callback for one block.  [today] is the
    start of the local day on which the check runs, [now] the instant of
    the check. *)
Definition checkBlock (today now reminderTime : Z)
    (notifiedBlockIds : gset Z) (block : ScheduleBlock) : option firing :=
  match startTimeOf today block with
  | Some startTime =>
      if negb (bool_decide (id block ∈ notifiedBlockIds))
      then
        let notificationTime := startTime - reminderTime * 60 * 1000 in
        if (notificationTime <=? now) && (now <? startTime)
        then Some (mkFiring (id block) (notificationFor reminderTime block))
        else None
      else None
  | None => None
  end.

(** The state of the display that the effect reads. *)
Record Display := mkDisplay {
  blocks : Schedule;
  reminderTime : Z;
  permissionGranted : bool;
  notifiedBlockIds : gset Z
}.

(** The interval is only set up under this condition. *)
Definition armed (d : Display) : bool :=
  negb (reminderTime d =? 0) && permissionGranted d
  && negb (Nat.eqb (length (blocks d)) 0).

(** One run of the interval callback: every block is checked against the
    set of the render that created the interval, and the ids of the blocks
    that fired are added to the set afterwards. *)
Definition tick (today now : Z) (d : Display) : list firing * Display :=
  if armed d then
    let fired :=
      omap (checkBlock today now (reminderTime d) (notifiedBlockIds d))
           (blocks d) in
    (fired,
     mkDisplay (blocks d) (reminderTime d) (permissionGranted d)
               (notifiedBlockIds d ∪ list_to_set (map firedId fired)))
  else ([], d).

(** The effect that depends on [blocks]: a new array in the [blocks] prop
    empties the set. *)
Definition receiveBlocks (newBlocks : Schedule) (d : Display) : Display :=
  mkDisplay newBlocks (reminderTime d) (permissionGranted d) ∅.

(** What happens to a mounted display between two generations: interval
    callbacks, and edits of the user through the handlers of [App], each of
    which hands a new array to the display. *)
Inductive event :=
| Tick (today now : Z)
| UpdateTaskText (blockId taskIndex : Z) (newText : jsstring)
| UpdateTaskNotes (blockId taskIndex : Z) (newNotes : jsstring)
| DeleteTask (blockId taskIndex : Z)
| ReorderTasks (source destination : TaskRef)
| ClearCompletedTasks (completedTasks : gmap jsstring bool).

Definition edited (f : option Schedule -> option Schedule) (d : Display)
  : Display :=
  match f (Some (blocks d)) with
  | Some newBlocks => receiveBlocks newBlocks d
  | None => d
  end.

Definition step (d : Display) (ev : event) : list firing * Display :=
  match ev with
  | Tick today now => tick today now d
  | UpdateTaskText b i newText => ([], edited (updateTaskText b i newText) d)
  | UpdateTaskNotes b i newNotes => ([], edited (updateTaskNotes b i newNotes) d)
  | DeleteTask b i => ([], edited (deleteTask b i) d)
  | ReorderTasks source destination =>
      (* the updater gives back [currentSchedule] itself when a block is
         missing: the prop is the same array and the effect does not run *)
      match findBlock (blockId source) (jsonCopy (blocks d)),
            findBlock (blockId destination) (jsonCopy (blocks d)) with
      | Some _, Some _ => ([], edited (reorderTask source destination) d)
      | _, _ => ([], d)
      end
  | ClearCompletedTasks completedTasks =>
      ([], edited (clearCompletedTasks completedTasks) d)
  end.

(** A run of events from a display, with everything that fired. *)
Fixpoint run (d : Display) (evs : list event) : list firing * Display :=
  match evs with
  | [] => ([], d)
  | ev :: evs' =>
      let '(fired, d') := step d ev in
      let '(fired', d'') := run d' evs' in
      (fired ++ fired', d'')
  end.

(** The display as it is mounted for a freshly generated schedule. *)
Definition mount (newBlocks : Schedule) (reminderTime : Z)
    (permissionGranted : bool) : Display :=
  mkDisplay newBlocks reminderTime permissionGranted ∅.

End Reminder.
Import Reminder.

Definition sampleDocument : jsstring :=
  lit "**7:00 AM - 8:00 AM: Morning**" ++ [c_newline] ++
  lit "* Eat breakfast" ++ [c_newline] ++
  lit "* Brush teeth" ++ [c_newline; c_newline] ++
  lit "**8:00 AM - 9:00 AM: Work: Deep Focus**" ++ [c_newline] ++
  lit "* Write report".


Definition workBlock : ScheduleBlock :=
  mkBlock 0 (lit "9:00 AM - 10:00 AM") (lit "Work")
          [Present (mkTask (lit "Write report") [])].


(** The schedule the sample document is meant to denote. *)
Definition sampleExpected : Schedule :=
  [ mkBlock 0 (lit "7:00 AM - 8:00 AM") (lit "Morning")
      [ Present (mkTask (lit "Eat breakfast") []);
        Present (mkTask (lit "Brush teeth") []) ];
    mkBlock 1 (lit "8:00 AM - 9:00 AM") (lit "Work: Deep Focus")
      [ Present (mkTask (lit "Write report") []) ] ].

(** Number of task entries of a schedule. *)
Definition taskCount (s : Schedule) : nat :=
  sum_list (map (fun b => length (tasks b)) s).

Definition blockIds (cur : option Schedule) : option (list Z) :=
  match cur with
  | Some s => Some (map id s)
  | None => None
  end.

(** A time text, as the spec words it: one or two digits, a colon, two
    digits, optional white space, and AM or PM in either case. *)
Definition isTimeText (m : jsstring) : Prop :=
  exists h mi ws a l,
    m = h ++ [c_colon] ++ mi ++ ws ++ [a; l]
    /\ (length h = 1 \/ length h = 2)%nat
    /\ forallb isDigit h = true
    /\ length mi = 2%nat
    /\ forallb isDigit mi = true
    /\ forallb isWhiteSpace ws = true
    /\ isMeridiemLetter a = true
    /\ isLetterM l = true.

(** The string holds a time text somewhere inside it. *)
Definition containsTime (s : jsstring) : Prop :=
  exists pre m post, s = pre ++ m ++ post /\ isTimeText m.

(** The tasks of a block that a clearing keeps, as the spec words it: those
    whose composite key is absent from the completion map or maps to false,
    in their order, the key taken at the index before the filter. *)
Definition keptTasks (completedTasks : gmap jsstring bool)
    (block : ScheduleBlock) : list entry :=
  omap (fun i => tasks block !! i)
       (filter (fun i => completedTasks !! taskId (id block) i <> Some true)
               (seq 0 (length (tasks block)))).

(** Two small schedules for the reordering cases: in the first the
    destination block 2 is empty, in the second both blocks hold tasks. *)
Definition packLunch : Task := mkTask (lit "Pack lunch") [].
Definition checkMail : Task := mkTask (lit "Check mail") [].
Definition writeReport : Task := mkTask (lit "Write report") [].

Definition emptyDestination : Schedule :=
  [ mkBlock 1 (lit "7:00 AM - 8:00 AM") (lit "Morning") [Present packLunch];
    mkBlock 2 (lit "8:00 AM - 9:00 AM") (lit "Work") [] ].

Definition twoBlocks : Schedule :=
  [ mkBlock 1 (lit "7:00 AM - 8:00 AM") (lit "Morning")
      [Present packLunch; Present checkMail];
    mkBlock 2 (lit "8:00 AM - 9:00 AM") (lit "Work") [Present writeReport] ].

(** ** App.tsx: handleToggleTask *)

(** The index comes from the position of the task in the rendered list.
    The new flag is the negation of the flag the current render reads. *)
Definition handleToggleTask (blockId : Z) (taskIndex : nat) (st : AppState)
  : AppState :=
  let isNowCompleted :=
    negb (isCompleted (completedTasks st) blockId taskIndex) in
  mkApp (schedule st)
        (<[taskId blockId taskIndex := isNowCompleted]> (completedTasks st))
        (isLoading st) (error st).

(** ** components/PlannerDisplay.tsx: the progress highlight *)

Module Progress.

(** [block.time.split('-').map(s => s.trim())], of which the render reads
    elements 0 and 1; a missing element is [undefined], on which [parseTime]
    gives [null]. *)
Definition renderTimes (today : Z) (block : ScheduleBlock)
  : option Z * option Z :=
  match map trim (split [c_dash] (time block)) with
  | startTimeStr :: endTimeStr :: _ =>
      (parseTime today startTimeStr, parseTime today endTimeStr)
  | [startTimeStr] => (parseTime today startTimeStr, None)
  | [] => (None, None)
  end.

(** [startTime && endTime && currentTime >= startTime
     && currentTime <= endTime] read as a condition. *)
Definition isCurrent (today currentTime : Z) (block : ScheduleBlock) : bool :=
  match renderTimes today block with
  | (Some startTime, Some endTime) =>
      (startTime <=? currentTime) && (currentTime <=? endTime)
  | _ => false
  end.

End Progress.
Import Progress.

(** ** components/PlannerDisplay.tsx: calendar export *)

Module Calendar.

Definition c_zero : char := 48%N.
Definition c_underscore : char := 95%N.
Definition c_backslash : char := 92%N.
Definition c_n : char := 110%N.
Definition CRLF : jsstring := [13%N; 10%N].

(** [num.toString().padStart(2, '0')] *)
Definition pad (num : Z) : jsstring :=
  let s := numberToString num in
  replicate (2 - length s) c_zero ++ s.

(** What the six UTC getters of a [Date] return; the month counts from 0. *)
Record UtcFields := mkUtc {
  utcFullYear : Z;
  utcMonth : Z;
  utcDate : Z;
  utcHours : Z;
  utcMinutes : Z;
  utcSeconds : Z
}.

(** [formatToICSDate], on the values of the getters. *)
Definition formatToICSDate (date : UtcFields) : jsstring :=
  numberToString (utcFullYear date)
  ++ pad (utcMonth date + 1) ++ pad (utcDate date)
  ++ lit "T"
  ++ pad (utcHours date) ++ pad (utcMinutes date) ++ pad (utcSeconds date)
  ++ lit "Z".

Definition isAlphaNumeric (c : char) : bool :=
  (((97 <=? c) && (c <=? 122)) || ((65 <=? c) && (c <=? 90))
   || ((48 <=? c) && (c <=? 57)))%N.

(** [title.replace(all code units that are no letter and no digit, '_')] *)
Definition sanitize (title : jsstring) : jsstring :=
  map (fun c => if isAlphaNumeric c then c else c_underscore) title.

Definition fileNameFor (block : ScheduleBlock) : jsstring :=
  sanitize (title block) ++ lit ".ics".

(** [block.tasks.map(t => t.text)]: reading [text] of [undefined] or of
    [null] throws. *)
Fixpoint taskTexts (entries : list entry) : result (list jsstring) :=
  match entries with
  | [] => Ok []
  | Present t :: rest =>
      texts <-- taskTexts rest ;;
      Ok (text t :: texts)
  | (Undefined | Null) :: _ => Throw TypeError
  end.

Record download := mkDownload {
  fileName : jsstring;
  icsContent : jsstring
}.

Inductive exportOutcome :=
| Rejected
| Downloaded (file : download).

(** [handleAddToCalendar].  [utc] is the calendar of the platform: the UTC
    fields of an instant.  [today] is the start of the local day at the
    time of the call, [uidNow] what [Date.now()] returns and [stampNow] the
    instant of [new Date()]. *)
Definition handleAddToCalendar (utc : Z -> UtcFields)
    (today uidNow stampNow : Z) (block : ScheduleBlock)
  : result exportOutcome :=
  let timeParts := map (parseTime today) (split [c_dash] (time block)) in
  match timeParts with
  | Some startDate :: Some endDate :: _ =>
      texts <-- taskTexts (tasks block) ;;
      Ok (Downloaded
            (mkDownload
               (fileNameFor block)
               (join CRLF
                  [ lit "BEGIN:VCALENDAR";
                    lit "VERSION:2.0";
                    lit "PRODID:-//BrainWave//AI Planner//EN";
                    lit "BEGIN:VEVENT";
                    lit "UID:" ++ numberToString (id block) ++ [c_dash]
                      ++ numberToString uidNow ++ lit "@brainwave.app";
                    lit "DTSTAMP:" ++ formatToICSDate (utc stampNow);
                    lit "DTSTART:" ++ formatToICSDate (utc startDate);
                    lit "DTEND:" ++ formatToICSDate (utc endDate);
                    lit "SUMMARY:" ++ title block;
                    lit "DESCRIPTION:" ++ join [c_backslash; c_n] texts;
                    lit "END:VEVENT";
                    lit "END:VCALENDAR" ])))
  | _ => Ok Rejected
  end.

End Calendar.
Import Calendar.

(** ** Predicates used in the statements *)

(** No [undefined] sits in a task list of the schedule. *)
Definition noUndefined (s : Schedule) : Prop :=
  Forall (fun b => Forall (fun e => e <> Undefined) (tasks b)) s.

(** Every entry of the list is a task. *)
Definition allPresent (entries : list entry) : Prop :=
  Forall (fun e => exists t, e = Present t) entries.

(** A string that trimming leaves as it is. *)
Definition isTrimmed (s : jsstring) : Prop := trim s = s.

(** The string holds the two letters AM or PM next to each other. *)
Definition hasMeridiemMark (s : jsstring) : Prop :=
  exists pre a post,
    s = pre ++ [a; c_M] ++ post /\ (a = c_A \/ a = c_P).

(** The hour on the 24-hour clock that [parseTime] derives from the hour
    digits and the first letter of the period. *)
Definition to24 (hours : Z) (periodLetter : char) : Z :=
  if ((periodLetter =? c_P) || (periodLetter =? c_p))%N
  then (if hours <? 12 then hours + 12 else hours)
  else (if hours =? 12 then 0 else hours).

(** The fields of a date that fit the fixed width of a calendar stamp. *)
Definition fitsStamp (date : UtcFields) : Prop :=
  1000 <= utcFullYear date <= 9999
  /\ 0 <= utcMonth date <= 11
  /\ 1 <= utcDate date <= 31
  /\ 0 <= utcHours date <= 23
  /\ 0 <= utcMinutes date <= 59
  /\ 0 <= utcSeconds date <= 59.

(** What every block of a parse looks like. *)
Definition cleanBlock (b : ScheduleBlock) : Prop :=
  isTrimmed (time b) /\ isTrimmed (title b)
  /\ Forall (fun e => exists t, e = Present t /\ text t <> []
                                /\ isTrimmed (text t) /\ notes t = [])
            (tasks b).

(** No later start of the header pattern: at no suffix of the string do
    the letters AM or PM, white space and a colon follow one another. *)
Definition noTailMatch (s : jsstring) : Prop :=
  forall pre t, s = pre ++ t -> headerTail t = None.

(** A test for [hasMeridiemMark]. *)
Fixpoint meridiemMarkb (s : jsstring) : bool :=
  match s with
  | a :: (m :: _) as t =>
      (((a =? c_A) || (a =? c_P)) && (m =? c_M))%N || meridiemMarkb t
  | _ => false
  end.

(** Tests behind the shape of a calendar stamp: the two places of [pad] and
    the four places of a year read back as the number written. *)
Definition padReadsBack (n : Z) : bool :=
  match pad n with
  | [a; b] => isDigit a && isDigit b && (parseInt [a; b] =? n)
  | _ => false
  end.

Definition yearReadsBack (y : Z) : bool :=
  match numberToString y with
  | [a; b; c; d] =>
      isDigit a && isDigit b && isDigit c && isDigit d
      && (parseInt [a; b; c; d] =? y)
  | _ => false
  end.

(** ** Proof steps used repeatedly *)

(** Equal lists up to the bracketing of appends. *)
Ltac reassoc :=
  rewrite <- ?app_assoc; cbn [app]; rewrite <- ?app_assoc; reflexivity.

(** A code unit known to lie in a range of letters or digits is no white
    space. *)
Ltac not_white_space :=
  unfold isWhiteSpace, isLineTerminator;
  rewrite ?orb_false_iff; repeat split;
  try (apply N.eqb_neq; lia);
  apply andb_false_iff; (left; apply N.leb_gt; lia) || (right; apply N.leb_gt; lia).

(** * Properties *)

(** ** The parser *)

Section ParserFacts.

Lemma splitFrom_nonempty sep skip s : splitFrom sep skip s <> [].
Proof.
  revert skip. induction s as [|c s IH]; intros skip; simpl.
  - discriminate.
  - destruct skip as [|k]; [|apply IH].
    destruct (startsWith sep (c :: s)); [discriminate|].
    destruct (splitFrom sep 0 s); discriminate.
Qed.

Lemma split_nonempty sep s : split sep s <> [].
Proof. apply splitFrom_nonempty. Qed.

Lemma parseBlock_ok block index :
  exists b, parseBlock block index = Ok b /\ id b = Z.of_nat index.
Proof.
  unfold parseBlock.
  destruct (split [c_newline] (trim block)) as [|l ls] eqn:E.
  - exfalso. revert E. apply split_nonempty.
  - destruct (timeTitle l) as [tm tt]. eexists. split; reflexivity.
Qed.

Lemma mapIndexed_parseBlock_ok frags i :
  exists bs, mapIndexed parseBlock i frags = Ok bs
             /\ map id bs = map Z.of_nat (seq i (length frags)).
Proof.
  revert i. induction frags as [|x frags IH]; intros i; simpl.
  - exists []. split; reflexivity.
  - destruct (parseBlock_ok x i) as (b & -> & Hb).
    destruct (IH (S i)) as (bs & -> & Hbs). simpl.
    exists (b :: bs). split; [reflexivity|]. simpl. now rewrite Hb, Hbs.
Qed.

Lemma parsePlannerContent_ok content :
  exists bs, parsePlannerContent content = Ok bs
             /\ map id bs = map Z.of_nat (seq 0 (length (fragments content))).
Proof.
  unfold parsePlannerContent. destruct content as [|c content].
  - exists []. split; reflexivity.
  - simpl isEmpty. cbv iota. apply mapIndexed_parseBlock_ok.
Qed.

End ParserFacts.

(** ** Scanning and trimming *)

Section ScanFacts.

Context {A : Type} (p : A -> bool).

Lemma takeWhile_dropWhile (l : list A) : takeWhile p l ++ dropWhile p l = l.
Proof.
  induction l as [|x l IH]; simpl; [reflexivity|].
  destruct (p x); simpl; [now rewrite IH | reflexivity].
Qed.

Lemma takeWhile_all (l : list A) : forallb p (takeWhile p l) = true.
Proof.
  induction l as [|x l IH]; simpl; [reflexivity|].
  destruct (p x) eqn:E; simpl; [now rewrite E | reflexivity].
Qed.

Lemma dropWhile_all (l r : list A) :
  forallb p l = true -> dropWhile p (l ++ r) = dropWhile p r.
Proof.
  induction l as [|x l IH]; simpl; [reflexivity|].
  intros H. apply andb_true_iff in H as [Hx Hl]. now rewrite Hx, IH.
Qed.

Lemma dropWhile_stop (x : A) (r : list A) :
  p x = false -> dropWhile p (x :: r) = x :: r.
Proof. intros H. simpl. now rewrite H. Qed.

Lemma dropWhile_app_stop (l : list A) (x : A) (r : list A) :
  p x = false -> dropWhile p (l ++ x :: r) = dropWhile p l ++ x :: r.
Proof.
  intros H. induction l as [|y l IH]; simpl.
  - now rewrite H.
  - destruct (p y); [exact IH | reflexivity].
Qed.

Lemma dropWhile_suffix (l : list A) : exists a, l = a ++ dropWhile p l.
Proof. exists (takeWhile p l). symmetry. apply takeWhile_dropWhile. Qed.

End ScanFacts.

Lemma trim_infix s : exists a b, s = a ++ trim s ++ b.
Proof.
  unfold trim, trimEnd, trimStart.
  destruct (dropWhile_suffix isWhiteSpace s) as [a Ha].
  set (t := dropWhile isWhiteSpace s) in *.
  destruct (dropWhile_suffix isWhiteSpace (rev t)) as [b Hb].
  exists a, (rev b). rewrite Ha at 1. f_equal.
  rewrite <- rev_app_distr, <- Hb. now rewrite rev_involutive.
Qed.

(** Trimming never cuts into a part that starts and ends with code units
    that are not white space. *)
Lemma trim_keeps pre x mid y post :
  isWhiteSpace x = false -> isWhiteSpace y = false ->
  exists pre' post',
    trim (pre ++ (x :: mid ++ [y]) ++ post) = pre' ++ (x :: mid ++ [y]) ++ post'.
Proof.
  intros Hx Hy. unfold trim, trimStart, trimEnd.
  exists (dropWhile isWhiteSpace pre), (rev (dropWhile isWhiteSpace (rev post))).
  change ((x :: mid ++ [y]) ++ post) with (x :: (mid ++ [y]) ++ post).
  rewrite (dropWhile_app_stop _ _ _ _ Hx).
  assert (E : dropWhile isWhiteSpace pre ++ x :: (mid ++ [y]) ++ post
              = (dropWhile isWhiteSpace pre ++ x :: mid) ++ y :: post)
    by (rewrite <- !app_assoc; reflexivity).
  rewrite E, rev_app_distr. simpl rev at 1.
  rewrite <- app_assoc. simpl app at 2.
  rewrite (dropWhile_app_stop _ _ _ _ Hy).
  rewrite rev_app_distr. simpl rev at 1. rewrite rev_involutive.
  rewrite <- !app_assoc. simpl. rewrite <- ?app_assoc. reflexivity.
Qed.

(** ** The time pattern *)

Lemma digit_not_white_space c : isDigit c = true -> isWhiteSpace c = false.
Proof.
  unfold isDigit. intros H. apply andb_true_iff in H as [H1 H2].
  apply N.leb_le in H1, H2. not_white_space.
Qed.

Lemma meridiem_not_white_space c :
  isMeridiemLetter c = true -> isWhiteSpace c = false.
Proof.
  unfold isMeridiemLetter, c_A, c_a, c_P, c_p. intros H.
  rewrite !orb_true_iff, !N.eqb_eq in H.
  assert (64 < c < 113)%N by lia. not_white_space.
Qed.

Lemma letterM_not_white_space c : isLetterM c = true -> isWhiteSpace c = false.
Proof.
  unfold isLetterM, c_M, c_m. intros H.
  rewrite !orb_true_iff, !N.eqb_eq in H.
  assert (64 < c < 113)%N by lia. not_white_space.
Qed.

Lemma timeRest_complete h mi ws a l post :
  length mi = 2%nat -> forallb isDigit mi = true ->
  forallb isWhiteSpace ws = true ->
  isMeridiemLetter a = true -> isLetterM l = true ->
  timeRest h (c_colon :: mi ++ ws ++ [a; l] ++ post) = Some (h, mi, [a; l]).
Proof.
  intros Hlen Hmi Hws Ha Hl.
  destruct mi as [|m1 [|m2 [|? ?]]]; try discriminate Hlen.
  cbn [forallb] in Hmi. rewrite andb_true_r in Hmi.
  apply andb_true_iff in Hmi as [H1 H2].
  cbn [app]. unfold timeRest.
  rewrite N.eqb_refl, H1, H2. cbn [andb].
  rewrite (dropWhile_all _ _ _ Hws).
  cbn [app]. rewrite (dropWhile_stop _ _ _ (meridiem_not_white_space _ Ha)).
  now rewrite Ha, Hl.
Qed.

Lemma timeAt_complete m post :
  isTimeText m -> exists r, timeAt (m ++ post) = Some r.
Proof.
  intros (h & mi & ws & a & l & -> & Hh & Hd & Hlen & Hmi & Hws & Ha & Hl).
  assert (R : forall hh, timeRest hh
                (c_colon :: mi ++ ws ++ [a; l] ++ post) = Some (hh, mi, [a; l]))
    by (intros; now apply timeRest_complete).
  replace ((h ++ [c_colon] ++ mi ++ ws ++ [a; l]) ++ post)
    with (h ++ c_colon :: mi ++ ws ++ [a; l] ++ post)
    by reassoc.
  destruct h as [|d1 [|d2 [|? ?]]]; cbn [length] in Hh; try lia.
  - cbn [forallb] in Hd. rewrite andb_true_r in Hd.
    cbn [app]. unfold timeAt. rewrite Hd.
    change (isDigit c_colon) with false. cbn [andb].
    rewrite R. eauto.
  - cbn [forallb] in Hd. rewrite andb_true_r in Hd.
    apply andb_true_iff in Hd as [Hd1 Hd2].
    cbn [app]. unfold timeAt. rewrite Hd1, Hd2. cbn [andb].
    rewrite R. eauto.
Qed.

Lemma timeMatch_complete s :
  containsTime s -> exists r, timeMatch s = Some r.
Proof.
  intros (pre & m & post & -> & Hm).
  induction pre as [|c pre IH].
  - cbn [app]. destruct (timeAt_complete m post Hm) as [r Hr].
    destruct (m ++ post); cbn [timeMatch]; rewrite Hr; eauto.
  - cbn [app timeMatch]. destruct (timeAt (c :: pre ++ m ++ post)); eauto.
Qed.

Lemma timeRest_sound h s r :
  timeRest h s = Some r ->
  exists mi ws a l rest,
    r = (h, mi, [a; l])
    /\ s = c_colon :: mi ++ ws ++ [a; l] ++ rest
    /\ length mi = 2%nat /\ forallb isDigit mi = true
    /\ forallb isWhiteSpace ws = true
    /\ isMeridiemLetter a = true /\ isLetterM l = true.
Proof.
  unfold timeRest. destruct s as [|c [|m1 [|m2 t]]]; try discriminate.
  destruct ((c =? c_colon)%N && isDigit m1 && isDigit m2) eqn:E; [|discriminate].
  apply andb_true_iff in E as [E H2]. apply andb_true_iff in E as [Hc H1].
  apply N.eqb_eq in Hc. subst c.
  destruct (dropWhile isWhiteSpace t) as [|a [|l rest]] eqn:D; try discriminate.
  destruct (isMeridiemLetter a && isLetterM l) eqn:F; [|discriminate].
  apply andb_true_iff in F as [Ha Hl].
  intros [= <-]. exists [m1; m2], (takeWhile isWhiteSpace t), a, l, rest.
  repeat split; auto.
  - cbn [app]. do 3 f_equal.
    rewrite <- (takeWhile_dropWhile isWhiteSpace t) at 1. now rewrite D.
  - cbn [forallb]. now rewrite H1, H2.
  - apply takeWhile_all.
Qed.

Lemma timeRest_text h s r :
  (length h = 1 \/ length h = 2)%nat -> forallb isDigit h = true ->
  timeRest h s = Some r ->
  exists m post, h ++ s = m ++ post /\ isTimeText m.
Proof.
  intros Hh Hd Hr.
  destruct (timeRest_sound _ _ _ Hr)
    as (mi & ws & a & l & rest & _ & -> & Hlen & Hmi & Hws & Ha & Hl).
  exists (h ++ [c_colon] ++ mi ++ ws ++ [a; l]), rest. split.
  - reassoc.
  - exists h, mi, ws, a, l. repeat split; auto.
Qed.

Lemma timeAt_sound s r :
  timeAt s = Some r -> exists m post, s = m ++ post /\ isTimeText m.
Proof.
  unfold timeAt.
  destruct s as [|d1 t]; [discriminate|].
  destruct (match d1 :: t with
            | d1 :: d2 :: t =>
                if isDigit d1 && isDigit d2 then timeRest [d1; d2] t else None
            | _ => None
            end) as [r2|] eqn:Two.
  - intros _. destruct t as [|d2 t]; [discriminate|].
    destruct (isDigit d1 && isDigit d2) eqn:E; [|discriminate].
    apply (timeRest_text [d1; d2] t r2); auto.
    cbn [forallb]. now rewrite andb_true_r.
  - destruct (isDigit d1) eqn:E; [|discriminate].
    intros Hr. apply (timeRest_text [d1] t r); auto.
    cbn [forallb]. now rewrite E.
Qed.

Lemma timeMatch_sound s r : timeMatch s = Some r -> containsTime s.
Proof.
  induction s as [|c s IH]; cbn [timeMatch].
  - destruct (timeAt []) eqn:E; [|discriminate]. discriminate E.
  - destruct (timeAt (c :: s)) as [r'|] eqn:E.
    + intros _. destruct (timeAt_sound _ _ E) as (m & post & Hs & Hm).
      exists [], m, post. split; [exact Hs | exact Hm].
    + intros H. destruct (IH H) as (pre & m & post & -> & Hm).
      exists (c :: pre), m, post. split; [reflexivity | exact Hm].
Qed.

Lemma timeText_ends m :
  isTimeText m ->
  exists x mid y, m = x :: mid ++ [y]
                  /\ isWhiteSpace x = false /\ isWhiteSpace y = false.
Proof.
  intros (h & mi & ws & a & l & -> & Hh & Hd & Hlen & Hmi & Hws & Ha & Hl).
  destruct h as [|d1 h]; cbn [length] in Hh; [lia|].
  cbn [forallb] in Hd. apply andb_true_iff in Hd as [Hd1 _].
  exists d1, (h ++ [c_colon] ++ mi ++ ws ++ [a]), l. repeat split.
  - cbn [app]. f_equal. reassoc.
  - now apply digit_not_white_space.
  - now apply letterM_not_white_space.
Qed.

Lemma containsTime_trim s : containsTime s <-> containsTime (trim s).
Proof.
  split.
  - intros (pre & m & post & -> & Hm).
    destruct (timeText_ends m Hm) as (x & mid & y & E & Hx & Hy).
    destruct (trim_keeps pre x mid y post Hx Hy) as (pre' & post' & T).
    exists pre', m, post'. split; [|exact Hm]. rewrite E. exact T.
  - intros (pre & m & post & E & Hm).
    destruct (trim_infix s) as (a & b & Hs).
    exists (a ++ pre), m, (post ++ b). split; [|exact Hm].
    rewrite Hs at 1. rewrite E. reassoc.
Qed.

(** [parseClock] gives a result exactly on the strings that hold a time
    text. *)
Lemma parseClock_Some_iff s :
  (exists hm, parseClock s = Some hm) <-> containsTime s.
Proof.
  unfold parseClock. split.
  - intros [hm H]. destruct (isEmpty s); [discriminate|].
    destruct (timeMatch (trim s)) as [r|] eqn:E; [|discriminate].
    apply (proj2 (containsTime_trim s)). eapply timeMatch_sound, E.
  - intros Hc.
    assert (Hne : isEmpty s = false).
    { destruct Hc as (pre & m & post & -> & Hm).
      destruct (timeText_ends m Hm) as (x & mid & y & -> & _).
      destruct pre; reflexivity. }
    rewrite Hne.
    destruct (timeMatch_complete (trim s)) as [[[h mi] ap] ->];
      [exact (proj1 (containsTime_trim s) Hc)|]. eauto.
Qed.

(** ** The schedule store *)

Section StoreFacts.

Implicit Types (s : Schedule) (b : ScheduleBlock) (ts : list entry).

Lemma jsonCopy_lookup s k : jsonCopy s !! k = jsonBlock <$> s !! k.
Proof.
  revert k. induction s as [|b s IH]; intros [|k]; simpl; auto.
Qed.

Lemma jsonCopy_ids s : map id (jsonCopy s) = map id s.
Proof. induction s as [|b s IH]; simpl; [reflexivity | now rewrite IH]. Qed.

Lemma jsonCopy_length s : length (jsonCopy s) = length s.
Proof. apply length_map. Qed.

Lemma findBlock_jsonCopy blockId s : findBlock blockId (jsonCopy s) = findBlock blockId s.
Proof.
  induction s as [|b s IH]; simpl; [reflexivity|].
  destruct (id b =? blockId); [reflexivity | now rewrite IH].
Qed.

Lemma findBlock_Some blockId s i :
  findBlock blockId s = Some i -> exists b, s !! i = Some b /\ id b = blockId.
Proof.
  revert i. induction s as [|b s IH]; intros i; simpl; [discriminate|].
  destruct (id b =? blockId) eqn:E.
  - intros [= <-]. exists b. split; [reflexivity | now apply Z.eqb_eq].
  - destruct (findBlock blockId s) as [k|]; [|discriminate].
    intros [= <-]. apply (IH k eq_refl).
Qed.

Lemma findBlock_None blockId s :
  findBlock blockId s = None <-> Forall (fun b => id b <> blockId) s.
Proof.
  induction s as [|b s IH]; simpl.
  - split; [constructor | reflexivity].
  - destruct (id b =? blockId) eqn:E.
    + apply Z.eqb_eq in E. split; [discriminate|].
      intros H. inversion H; subst. contradiction.
    + apply Z.eqb_neq in E. destruct (findBlock blockId s).
      * split; [discriminate|]. intros H. inversion H; subst.
        destruct IH as [_ IH]. discriminate (IH H3).
      * split; [|reflexivity]. intros _. constructor; [exact E | now apply IH].
Qed.

Lemma tasksAt_jsonCopy s i : tasksAt i (jsonCopy s) = map jsonEntry (tasksAt i s).
Proof.
  unfold tasksAt. rewrite jsonCopy_lookup. destruct (s !! i); reflexivity.
Qed.

Lemma setTasksAt_ids i ts s : map id (setTasksAt i ts s) = map id s.
Proof.
  unfold setTasksAt. destruct (s !! i) as [b|] eqn:E; [|reflexivity].
  revert i E. induction s as [|x s IH]; intros [|i] E; simpl in *;
    try discriminate.
  - now injection E as ->.
  - f_equal. now apply IH.
Qed.

Lemma setTasksAt_length i ts s : length (setTasksAt i ts s) = length s.
Proof.
  unfold setTasksAt. destruct (s !! i); [apply length_insert | reflexivity].
Qed.

Lemma setTasksAt_lookup_ne i k ts s :
  i <> k -> setTasksAt i ts s !! k = s !! k.
Proof.
  intros H. unfold setTasksAt. destruct (s !! i); [|reflexivity].
  now apply list_lookup_insert_ne.
Qed.

Lemma setTasksAt_lookup_eq i ts s b :
  s !! i = Some b -> setTasksAt i ts s !! i = Some (withTasks b ts).
Proof.
  intros H. unfold setTasksAt. rewrite H.
  apply list_lookup_insert_eq. now apply lookup_lt_Some in H.
Qed.

Lemma tasksAt_setTasksAt_eq i ts s b :
  s !! i = Some b -> tasksAt i (setTasksAt i ts s) = ts.
Proof.
  intros H. unfold tasksAt. now rewrite (setTasksAt_lookup_eq _ _ _ _ H).
Qed.

Lemma tasksAt_setTasksAt_ne i k ts s :
  i <> k -> tasksAt k (setTasksAt i ts s) = tasksAt k s.
Proof. intros H. unfold tasksAt. now rewrite setTasksAt_lookup_ne. Qed.

Lemma taskCount_jsonCopy s : taskCount (jsonCopy s) = taskCount s.
Proof.
  unfold taskCount. induction s as [|b s IH]; simpl; [reflexivity|].
  now rewrite length_map, IH.
Qed.

Lemma taskCount_setTasksAt i ts s b :
  s !! i = Some b ->
  (taskCount (setTasksAt i ts s) + length (tasks b) = taskCount s + length ts)%nat.
Proof.
  intros H. unfold setTasksAt. rewrite H. unfold taskCount.
  revert i H. induction s as [|x s IH]; intros [|i] H; simpl in *;
    try discriminate.
  - injection H as ->. lia.
  - specialize (IH i H). rewrite <- !Nat.add_assoc. f_equal. exact IH.
Qed.

Lemma filterIndexed_seq {A} (q : nat -> bool) (l : list A) k :
  filterIndexed (fun _ i => q i) k l
  = omap (fun i => l !! (i - k)%nat)
         (filter (fun i => q i = true) (seq k (length l))).
Proof.
  revert k. induction l as [|x l IH]; intros k; [reflexivity|].
  cbn [filterIndexed length seq]. rewrite filter_cons.
  assert (T : omap (fun i => (x :: l) !! (i - k)%nat)
                (filter (fun i => q i = true) (seq (S k) (length l)))
              = omap (fun i => l !! (i - S k)%nat)
                (filter (fun i => q i = true) (seq (S k) (length l)))).
  { apply list_omap_ext, Forall_Forall2_diag, Forall_forall.
    intros i Hi. apply list_elem_of_filter in Hi as [_ Hi].
    apply elem_of_seq in Hi.
    replace (i - k)%nat with (S (i - S k)) by lia. reflexivity. }
  destruct (q k) eqn:E.
  - rewrite decide_True by reflexivity. cbn [omap list_omap].
    rewrite Nat.sub_diag. cbn [lookup list_lookup].
    f_equal. rewrite IH. symmetry. exact T.
  - rewrite decide_False by discriminate.
    rewrite IH. symmetry. exact T.
Qed.

End StoreFacts.

Section IdFacts.

Implicit Types (cur : option Schedule).


Lemma deleteTask_ids blockId taskIndex cur :
  blockIds (deleteTask blockId taskIndex cur) = blockIds cur.
Proof.
  destruct cur as [s|]; [|reflexivity]. simpl. f_equal.
  induction s as [|b s IH]; simpl; [reflexivity|]. rewrite IH. f_equal.
  now destruct (id b =? blockId).
Qed.



End IdFacts.

Lemma getHours_setHours today h m :
  0 <= h < 24 -> 0 <= m < 60 -> getHours today (setHours today h m) = h.
Proof.
  intros Hh Hm. unfold getHours, setHours.
  replace (today + h * 3600000 + m * 60000 - today)
    with (h * 3600000 + m * 60000) by lia.
  replace ((h * 3600000 + m * 60000) / 3600000) with h.
  - now apply Z.mod_small.
  - apply Z.div_unique with (r := m * 60000); lia.
Qed.

Lemma parseTime_hour today s h m :
  parseClock s = Some (h, m) -> 0 <= h < 24 -> 0 <= m < 60 ->
  getHours today <$> parseTime today s = Some h.
Proof.
  intros E Hh Hm. unfold parseTime. rewrite E. simpl.
  now rewrite getHours_setHours.
Qed.

Lemma parseTime_None_iff today s : parseTime today s = None <-> ~ containsTime s.
Proof.
  rewrite <- parseClock_Some_iff. unfold parseTime.
  destruct (parseClock s) as [[h m]|]; split.
  - discriminate.
  - intros H. exfalso. apply H. eauto.
  - intros _ [hm H]. discriminate.
  - reflexivity.
Qed.

Section SpliceFacts.

Context {A : Type}.
Implicit Types (l : list A) (x : A).

Lemma relativeStart_le start len : (relativeStart start len <= len)%nat.
Proof. unfold relativeStart. destruct (start <? 0) eqn:E; lia. Qed.

Lemma relativeStart_inside start len :
  0 <= start <= Z.of_nat len -> relativeStart start len = Z.to_nat start.
Proof.
  intros H. unfold relativeStart.
  destruct (start <? 0) eqn:E; [apply Z.ltb_lt in E; lia|]. f_equal. lia.
Qed.

Lemma relativeStart_beyond start len :
  Z.of_nat len <= start -> relativeStart start len = len.
Proof.
  intros H. unfold relativeStart.
  destruct (start <? 0) eqn:E; [apply Z.ltb_lt in E; lia|]. lia.
Qed.

Lemma spliceRemoveOne_beyond start l :
  Z.of_nat (length l) <= start -> spliceRemoveOne start l = ([], l).
Proof.
  intros H. unfold spliceRemoveOne. rewrite relativeStart_beyond by exact H.
  rewrite drop_all, firstn_all, drop_ge by lia. now rewrite app_nil_r.
Qed.

Lemma spliceInsert_length start x l :
  length (spliceInsert start x l) = S (length l).
Proof.
  unfold spliceInsert. pose proof (relativeStart_le start (length l)).
  rewrite length_app, length_take. cbn [length]. rewrite length_drop. lia.
Qed.

Lemma spliceInsert_lookup start x l :
  spliceInsert start x l !! relativeStart start (length l) = Some x.
Proof.
  unfold spliceInsert. pose proof (relativeStart_le start (length l)).
  rewrite lookup_app_r by (rewrite length_take; lia).
  rewrite length_take. now replace (_ - _)%nat with 0%nat by lia.
Qed.

End SpliceFacts.

Lemma setTasksAt_same i (s : Schedule) : setTasksAt i (tasksAt i s) s = s.
Proof.
  unfold setTasksAt, tasksAt. destruct (s !! i) as [b|] eqn:E; [|reflexivity].
  apply list_insert_id. unfold Schedule in *. rewrite E. now destruct b.
Qed.

Lemma kept_by_filter completed (b : ScheduleBlock) :
  filterIndexed (fun _ taskIndex => negb (isCompleted completed (id b) taskIndex))
                O (tasks b)
  = keptTasks completed b.
Proof.
  rewrite (filterIndexed_seq
             (fun i => negb (isCompleted completed (id b) i))).
  unfold keptTasks.
  rewrite (list_filter_iff _
             (fun i => completed !! taskId (id b) i <> Some true)).
  - apply list_omap_ext, Forall_Forall2_diag, Forall_forall.
    intros i _. now rewrite Nat.sub_0_r.
  - intros i. unfold isCompleted.
    destruct (completed !! taskId (id b) i) as [[|]|]; simpl; split;
      congruence.
Qed.

Lemma reorderTask_found source destination (s : Schedule) i j :
  findBlock (blockId source) s = Some i ->
  findBlock (blockId destination) s = Some j ->
  reorderTask source destination (Some s)
  = let copy := jsonCopy s in
    let parts := spliceRemoveOne (taskIndex source) (tasksAt i copy) in
    let afterRemoval := setTasksAt i (snd parts) copy in
    Some (setTasksAt j
            (spliceInsert (taskIndex destination)
               (match fst parts with e :: _ => e | [] => Undefined end)
               (tasksAt j afterRemoval))
            afterRemoval).
Proof.
  intros Hi Hj. unfold reorderTask. rewrite !findBlock_jsonCopy, Hi, Hj.
  now destruct (spliceRemoveOne (taskIndex source) (tasksAt i (jsonCopy s))).
Qed.

Lemma reorderTask_missing source destination (s : Schedule) :
  findBlock (blockId source) s = None
  \/ findBlock (blockId destination) s = None ->
  reorderTask source destination (Some s) = Some s.
Proof.
  intros H. unfold reorderTask. rewrite !findBlock_jsonCopy.
  destruct H as [-> | ->]; [reflexivity|].
  now destruct (findBlock (blockId source) s).
Qed.

Lemma tasksAt_lookup (s : Schedule) i b :
  s !! i = Some b -> tasksAt i s = tasks b.
Proof. intros H. unfold tasksAt. unfold Schedule in *. now rewrite H. Qed.

(** ** The reminder check *)

Section ReminderFacts.

Implicit Types (d : Display) (b : ScheduleBlock) (f : firing).

(** A block fires only when its start time parses, it has not been marked,
    and the check lands in the window that opens [reminderTime] minutes
    before the start and closes at the start. *)
Lemma checkBlock_Some today now lead (notified : gset Z) b f :
  checkBlock today now lead notified b = Some f ->
  firedId f = id b
  /\ (id b ∉ notified)
  /\ exists startTime,
       startTimeOf today b = Some startTime
       /\ startTime - lead * 60 * 1000 <= now < startTime.
Proof.
  unfold checkBlock. destruct (startTimeOf today b) as [startTime|]; [|discriminate].
  destruct (bool_decide (id b ∈ notified)) eqn:N; [discriminate|].
  apply bool_decide_eq_false in N. cbn [negb].
  destruct ((startTime - lead * 60 * 1000 <=? now) && (now <? startTime)) eqn:W;
    [|discriminate].
  apply andb_true_iff in W as [W1 W2].
  apply Z.leb_le in W1. apply Z.ltb_lt in W2.
  intros [= <-]. split; [reflexivity|]. split; [exact N|].
  exists startTime. split; [reflexivity | lia].
Qed.

Lemma tick_fires_in_window today now d f :
  f ∈ fst (tick today now d) ->
  exists b,
    b ∈ blocks d /\ firedId f = id b /\ (id b ∉ notifiedBlockIds d)
    /\ exists startTime,
         startTimeOf today b = Some startTime
         /\ startTime - reminderTime d * 60 * 1000 <= now < startTime.
Proof.
  unfold tick. destruct (armed d); cbn [fst].
  - intros H. apply list_elem_of_omap in H as (b & Hb & Hf).
    exists b. split; [exact Hb|]. now apply checkBlock_Some in Hf.
  - intros H. now apply elem_of_nil in H.
Qed.

(** A block whose start time does not parse never fires. *)
Lemma checkBlock_unparsed today now lead (notified : gset Z) b :
  startTimeOf today b = None -> checkBlock today now lead notified b = None.
Proof. intros H. unfold checkBlock. now rewrite H. Qed.

(** Once the start has passed, the block does not fire any more. *)
Lemma checkBlock_late today now lead (notified : gset Z) b startTime :
  startTimeOf today b = Some startTime -> startTime <= now ->
  checkBlock today now lead notified b = None.
Proof.
  intros H L. unfold checkBlock. rewrite H.
  destruct (negb (bool_decide (id b ∈ notified))); [|reflexivity].
  replace (now <? startTime) with false by (symmetry; apply Z.ltb_ge; lia).
  now rewrite andb_false_r.
Qed.

(** A marked block does not fire, and a block that fires is marked. *)
Lemma checkBlock_notified today now lead (notified : gset Z) b :
  id b ∈ notified -> checkBlock today now lead notified b = None.
Proof.
  intros H. unfold checkBlock. destruct (startTimeOf today b); [|reflexivity].
  now rewrite bool_decide_eq_true_2.
Qed.

Lemma tick_marks_fired today now d f :
  f ∈ fst (tick today now d) ->
  firedId f ∈ notifiedBlockIds (snd (tick today now d)).
Proof.
  unfold tick. destruct (armed d); cbn [fst snd notifiedBlockIds].
  - intros H. apply elem_of_union_r, elem_of_list_to_set.
    apply list_elem_of_fmap. exists f. split; [reflexivity | exact H].
  - intros H. now apply elem_of_nil in H.
Qed.

Lemma tick_keeps_setup today now d :
  blocks (snd (tick today now d)) = blocks d
  /\ reminderTime (snd (tick today now d)) = reminderTime d
  /\ permissionGranted (snd (tick today now d)) = permissionGranted d
  /\ notifiedBlockIds d ⊆ notifiedBlockIds (snd (tick today now d)).
Proof.
  unfold tick. destruct (armed d); cbn [snd]; repeat split; try reflexivity.
  cbn [notifiedBlockIds]. apply union_subseteq_l.
Qed.

(** As long as the [blocks] prop stays the same array, a block that fired
    at one check does not fire at the next. *)
Lemma tick_twice_fires_once today now today' now' d f f' :
  f ∈ fst (tick today now d) ->
  f' ∈ fst (tick today' now' (snd (tick today now d))) ->
  firedId f <> firedId f'.
Proof.
  intros H H' E. apply tick_marks_fired in H.
  apply tick_fires_in_window in H' as (b & _ & Hid & Hnot & _).
  apply Hnot. rewrite <- Hid, <- E. exact H.
Qed.

End ReminderFacts.

(** In a range string the first time text is the one read. *)
Example parseClock_range_start :
  parseClock (lit "7:00 AM - 8:00 AM") = Some (7, 0)
  /\ parseClock (lit " 9:30 pm ") = Some (21, 30)
  /\ parseClock (lit "from 12:15am on") = Some (0, 15).
Proof. repeat split; vm_compute; reflexivity. Qed.

(** A clearing on a small schedule: the flag of task 0 of block 1 is set,
    the flag of task 1 is present but false, block 2 has no flag. *)
Example clearCompletedTasks_twoBlocks :
  clearCompletedTasks
    (<[taskId 1 0 := true]> (<[taskId 1 1 := false]> ∅)) (Some twoBlocks)
  = Some [ mkBlock 1 (lit "7:00 AM - 8:00 AM") (lit "Morning")
                   [Present checkMail];
           mkBlock 2 (lit "8:00 AM - 9:00 AM") (lit "Work")
                   [Present writeReport] ].
Proof. vm_compute. reflexivity. Qed.

(** * The claims *)

(** C1 (as amended).  A failed generation writes nothing into the schedule
    or the completion map: the [catch] clause leaves both as it finds them.
    What it finds is what [handleGenerate] set before issuing the call, so
    after a failure the schedule is absent, the completion map is empty, the
    loading flag is off and the message of the error is the one surfaced. *)
Theorem handleGenerate_failure_state :
  (forall m st,
      schedule (generateFinish (Failed m) st) = schedule st
      /\ completedTasks (generateFinish (Failed m) st) = completedTasks st)
  /\ (forall m st,
         handleGenerate (Failed m) st
         = mkApp None ∅ false (Some (ErrorMessage m))).
Proof. split; intros m st; [split|]; reflexivity. Qed.

(** C1 (as stated) fails: a schedule and a completion flag that were in
    memory before [handleGenerate] ran are gone after a failed generation. *)
Lemma handleGenerate_failure_discards_prior_state :
  let st := mkApp (Some sampleExpected) {[ taskId 0 0 := true ]} false None in
  let st' := handleGenerate (Failed (lit "Failed to generate schedule")) st in
  ~ (schedule st' = schedule st /\ completedTasks st' = completedTasks st).
Proof. intros st st' [H _]. discriminate H. Qed.

(** C2.  On the sample document the parser gives two blocks with the times
    and titles the claim names (the colon inside the second title stays in
    the title), but with no task at all: the bullet lines sit in fragments of
    their own between the bold markers, those fragments hold no colon, and
    the filter drops them. *)
Theorem parsePlannerContent_sample_has_no_tasks :
  parsePlannerContent sampleDocument
  = Ok [ mkBlock 0 (lit "7:00 AM - 8:00 AM") (lit "Morning") [];
         mkBlock 1 (lit "8:00 AM - 9:00 AM") (lit "Work: Deep Focus") [] ]
  /\ parsePlannerContent sampleDocument <> Ok sampleExpected.
Proof. split; [vm_compute; reflexivity | vm_compute; discriminate]. Qed.

(** C4.  [parseTime] converts to 24-hour form: 12:00 AM is hour 0, 12:30 PM
    is hour 12, 7:05 PM is hour 19; and it returns null on every input that
    holds no time text, among them the empty string and the word garbage. *)
Theorem parseTime_24_hour_and_null (today : Z) :
  getHours today <$> parseTime today (lit "12:00 AM") = Some 0
  /\ getHours today <$> parseTime today (lit "12:30 PM") = Some 12
  /\ getHours today <$> parseTime today (lit "7:05 PM") = Some 19
  /\ (forall s, ~ containsTime s -> parseTime today s = None)
  /\ parseTime today [] = None
  /\ parseTime today (lit "garbage") = None.
Proof.
  repeat split.
  - apply parseTime_hour with (m := 0); [vm_compute; reflexivity | lia | lia].
  - apply parseTime_hour with (m := 30); [vm_compute; reflexivity | lia | lia].
  - apply parseTime_hour with (m := 5); [vm_compute; reflexivity | lia | lia].
  - intros s. apply parseTime_None_iff.
Qed.

Lemma parseTime_24_hour_and_null_witness :
  ~ containsTime (lit "half past seven")
  /\ parseTime 0 (lit "half past seven") = None.
Proof.
  assert (H : ~ containsTime (lit "half past seven")).
  { apply (parseTime_None_iff 0). vm_compute. reflexivity. }
  split; [exact H|].
  destruct (parseTime_24_hour_and_null 0) as (_ & _ & _ & N & _).
  exact (N _ H).
Defined.


(** C8.  [parsePlannerContent] returns a sequence of blocks on every input
    string and never throws; the empty string, a blank string and a document
    without bold markers or colons give the empty sequence, and a fragment
    that is only a colon gives a block with empty time and title. *)
Theorem parsePlannerContent_total :
  (forall content, exists bs, parsePlannerContent content = Ok bs)
  /\ parsePlannerContent [] = Ok []
  /\ parsePlannerContent (lit "   ") = Ok []
  /\ parsePlannerContent (lit "just some prose, no markers") = Ok []
  /\ parsePlannerContent (lit "**:**") = Ok [mkBlock 0 [] [] []].
Proof.
  repeat split; try (vm_compute; reflexivity).
  intros content. destruct (parsePlannerContent_ok content) as (bs & H & _).
  eauto.
Qed.

(** C10.  [parseTime] gives an instant for every string that holds a time
    text anywhere inside it, whatever surrounds it. *)
Theorem parseTime_finds_time_anywhere today s :
  containsTime s -> exists date, parseTime today s = Some date.
Proof.
  intros H. apply parseClock_Some_iff in H as [[h m] H].
  unfold parseTime. rewrite H. eauto.
Qed.

Lemma parseTime_finds_time_anywhere_witness :
  containsTime (lit "Call at 7:05 pm sharp")
  /\ exists date, parseTime 0 (lit "Call at 7:05 pm sharp") = Some date.
Proof.
  assert (H : containsTime (lit "Call at 7:05 pm sharp")).
  { exists (lit "Call at "), (lit "7:05 pm"), (lit " sharp").
    split; [reflexivity|].
    exists (lit "7"), (lit "05"), (lit " "), c_p, c_m.
    repeat split; try reflexivity. left. reflexivity. }
  split; [exact H|].
  exact (parseTime_finds_time_anywhere 0 _ H).
Defined.

(** C6.  Clearing keeps, in every block and in order, exactly the tasks
    whose composite key (block id, dash, index before the filter) is absent
    from the completion map or maps to false, and removes exactly those whose
    key maps to true; nothing else of a block changes. *)
Theorem clearCompletedTasks_exact completed (s : Schedule) :
  clearCompletedTasks completed (Some s)
  = Some (map (fun b => withTasks b (keptTasks completed b)) s).
Proof.
  simpl. f_equal. apply map_ext. intros b. now rewrite kept_by_filter.
Qed.

(** C5 (as amended).  With both blocks present and a task at index 0 of
    block 1, [reorderTask] from (block 1, index 0) to (block 2, index 1)
    moves exactly that task: block 1 loses its first task, block 2 gains it
    at position 1, or at position 0 when block 2 was empty, every other
    block is as the deep copy leaves it, and the number of tasks of the
    schedule is the same.  When either block id is missing the schedule
    comes back unchanged. *)
Theorem reorderTask_moves_one_task (s : Schedule) :
  (forall i j t,
      findBlock 1 s = Some i -> findBlock 2 s = Some j ->
      tasksAt i s !! 0%nat = Some (Present t) ->
      exists new,
        reorderTask (mkRef 1 0) (mkRef 2 1) (Some s) = Some new
        /\ tasksAt i new = drop 1 (map jsonEntry (tasksAt i s))
        /\ tasksAt j new
           = take 1 (map jsonEntry (tasksAt j s))
             ++ Present t :: drop 1 (map jsonEntry (tasksAt j s))
        /\ tasksAt j new !! Nat.min 1 (length (tasksAt j s)) = Some (Present t)
        /\ S (length (tasksAt i new)) = length (tasksAt i s)
        /\ length (tasksAt j new) = S (length (tasksAt j s))
        /\ (forall k, k <> i -> k <> j -> new !! k = jsonBlock <$> s !! k)
        /\ taskCount new = taskCount s)
  /\ (forall source destination,
         findBlock (blockId source) s = None
         \/ findBlock (blockId destination) s = None ->
         reorderTask source destination (Some s) = Some s).
Proof.
  split; [|intros; now apply reorderTask_missing].
  intros i j t Hi Hj Ht.
  destruct (findBlock_Some _ _ _ Hi) as (bi & Ei & Idi).
  destruct (findBlock_Some _ _ _ Hj) as (bj & Ej & Idj).
  assert (Hij : i <> j).
  { intros ->. unfold Schedule in *. rewrite Ei in Ej. injection Ej as ->. lia. }
  rewrite (reorderTask_found (mkRef 1 0) (mkRef 2 1) s i j Hi Hj).
  cbn [blockId taskIndex]. cbv zeta.
  assert (Ci : jsonCopy s !! i = Some (jsonBlock bi))
    by (rewrite jsonCopy_lookup; unfold Schedule in *; now rewrite Ei).
  assert (Cj : jsonCopy s !! j = Some (jsonBlock bj))
    by (rewrite jsonCopy_lookup; unfold Schedule in *; now rewrite Ej).
  rewrite tasksAt_jsonCopy.
  destruct (tasksAt i s) as [|e rest] eqn:Ti; [discriminate Ht|].
  injection Ht as ->.
  assert (R : spliceRemoveOne 0 (map jsonEntry (Present t :: rest))
              = ([Present t], map jsonEntry rest)) by reflexivity.
  rewrite R. cbn [fst snd].
  set (afterRemoval := setTasksAt i (map jsonEntry rest) (jsonCopy s)).
  assert (Aj : afterRemoval !! j = Some (jsonBlock bj))
    by (unfold afterRemoval; now rewrite setTasksAt_lookup_ne).
  assert (Tj : tasksAt j afterRemoval = map jsonEntry (tasksAt j s)).
  { unfold afterRemoval. rewrite tasksAt_setTasksAt_ne by exact Hij.
    apply tasksAt_jsonCopy. }
  rewrite Tj. set (dest := map jsonEntry (tasksAt j s)).
  assert (Ins : spliceInsert 1 (Present t) dest
                = take 1 dest ++ Present t :: drop 1 dest).
  { unfold spliceInsert. destruct dest as [|x dest']; [reflexivity|].
    rewrite relativeStart_inside by (cbn [length]; lia). reflexivity. }
  rewrite Ins.
  set (new := setTasksAt j (take 1 dest ++ Present t :: drop 1 dest) afterRemoval).
  assert (Ni : tasksAt i new = map jsonEntry rest).
  { unfold new. rewrite tasksAt_setTasksAt_ne by auto.
    unfold afterRemoval. now apply tasksAt_setTasksAt_eq with (b := jsonBlock bi). }
  assert (Nj : tasksAt j new = take 1 dest ++ Present t :: drop 1 dest).
  { unfold new. now apply tasksAt_setTasksAt_eq with (b := jsonBlock bj). }
  assert (Ld : length dest = length (tasksAt j s)) by apply length_map.
  exists new. repeat split.
  - exact Ni.
  - exact Nj.
  - rewrite Nj, <- Ld. destruct dest as [|x dest']; reflexivity.
  - rewrite Ni, length_map. reflexivity.
  - rewrite Nj, <- Ld. destruct dest as [|x dest']; cbn; [reflexivity|].
    now rewrite drop_0.
  - intros k Hki Hkj. unfold new, afterRemoval.
    rewrite !setTasksAt_lookup_ne by auto. apply jsonCopy_lookup.
  - pose proof (taskCount_setTasksAt j
                  (take 1 dest ++ Present t :: drop 1 dest) afterRemoval _ Aj) as P1.
    pose proof (taskCount_setTasksAt i (map jsonEntry rest) (jsonCopy s) _ Ci) as P2.
    fold afterRemoval in P2. fold new in P1.
    pose proof (taskCount_jsonCopy s) as P3.
    assert (L1 : length (take 1 dest ++ Present t :: drop 1 dest)
                 = S (length dest))
      by (destruct dest as [|x dest']; cbn; [reflexivity | now rewrite drop_0]).
    assert (L2 : length (tasks (jsonBlock bj)) = length dest).
    { unfold dest. rewrite (tasksAt_lookup s j bj Ej).
      reflexivity. }
    assert (L3 : length (tasks (jsonBlock bi)) = S (length rest)).
    { cbn [jsonBlock withTasks tasks]. rewrite length_map.
      rewrite <- (tasksAt_lookup s i bi Ei), Ti. reflexivity. }
    rewrite length_map in P2. lia.
Qed.

Lemma reorderTask_moves_one_task_witness :
  findBlock 1 twoBlocks = Some 0%nat
  /\ findBlock 2 twoBlocks = Some 1%nat
  /\ tasksAt 0 twoBlocks !! 0%nat = Some (Present packLunch)
  /\ findBlock 7 twoBlocks = None
  /\ (exists new,
         reorderTask (mkRef 1 0) (mkRef 2 1) (Some twoBlocks) = Some new
         /\ tasksAt 1 new !! 1%nat = Some (Present packLunch)
         /\ taskCount new = taskCount twoBlocks)
  /\ reorderTask (mkRef 7 0) (mkRef 2 1) (Some twoBlocks) = Some twoBlocks.
Proof.
  destruct (reorderTask_moves_one_task twoBlocks) as [M N].
  do 4 (split; [reflexivity|]). split.
  - destruct (M 0%nat 1%nat packLunch eq_refl eq_refl eq_refl)
      as (new & H1 & _ & _ & H4 & _ & _ & _ & H8).
    exists new. split; [exact H1|]. split; [exact H4 | exact H8].
  - apply N. left. reflexivity.
Defined.

(** C5 (as stated) fails: when block 2 holds no task, the task moved from
    block 1 lands at position 0 of block 2, and nothing is at position 1. *)
Lemma reorderTask_into_empty_block_lands_at_0 :
  findBlock 1 emptyDestination = Some 0%nat
  /\ findBlock 2 emptyDestination = Some 1%nat
  /\ tasksAt 0 emptyDestination !! 0%nat = Some (Present packLunch)
  /\ ~ (exists new,
           reorderTask (mkRef 1 0) (mkRef 2 1) (Some emptyDestination) = Some new
           /\ tasksAt 1 new !! 1%nat = Some (Present packLunch))
  /\ reorderTask (mkRef 1 0) (mkRef 2 1) (Some emptyDestination)
     = Some [ mkBlock 1 (lit "7:00 AM - 8:00 AM") (lit "Morning") [];
              mkBlock 2 (lit "8:00 AM - 9:00 AM") (lit "Work")
                      [Present packLunch] ].
Proof.
  do 3 (split; [reflexivity|]). split; [|reflexivity].
  intros (new & H & P). vm_compute in H. injection H as <-.
  vm_compute in P. discriminate P.
Qed.

(** C9 (as amended).  With both blocks present and a source index at or
    beyond the end of the source block, [reorderTask] is not a no-op: the
    first splice removes nothing, and the second one inserts an undefined
    entry into the destination block at the position it derives from the
    destination index (that index itself when it lies within the block), so
    the destination block grows by one entry, no block shrinks, and the
    schedule holds one entry more than before. *)
Theorem reorderTask_source_beyond_end (s : Schedule) source destination i j :
  findBlock (blockId source) s = Some i ->
  findBlock (blockId destination) s = Some j ->
  Z.of_nat (length (tasksAt i s)) <= taskIndex source ->
  exists new,
    reorderTask source destination (Some s) = Some new
    /\ new <> s
    /\ tasksAt j new
       = spliceInsert (taskIndex destination) Undefined
                      (map jsonEntry (tasksAt j s))
    /\ (0 <= taskIndex destination <= Z.of_nat (length (tasksAt j s)) ->
        tasksAt j new !! Z.to_nat (taskIndex destination) = Some Undefined)
    /\ length (tasksAt j new) = S (length (tasksAt j s))
    /\ (forall k, k <> j -> new !! k = jsonBlock <$> s !! k)
    /\ (forall k, (length (tasksAt k s) <= length (tasksAt k new))%nat)
    /\ taskCount new = S (taskCount s).
Proof.
  intros Hi Hj Hbeyond.
  destruct (findBlock_Some _ _ _ Hj) as (bj & Ej & Idj).
  rewrite (reorderTask_found source destination s i j Hi Hj). cbv zeta.
  rewrite spliceRemoveOne_beyond
    by (rewrite tasksAt_jsonCopy, length_map; exact Hbeyond).
  cbn [fst snd]. rewrite setTasksAt_same, tasksAt_jsonCopy.
  set (dest := map jsonEntry (tasksAt j s)).
  set (new := setTasksAt j (spliceInsert (taskIndex destination) Undefined dest)
                (jsonCopy s)).
  assert (Cj : jsonCopy s !! j = Some (jsonBlock bj))
    by (rewrite jsonCopy_lookup; unfold Schedule in *; now rewrite Ej).
  assert (Ld : length dest = length (tasksAt j s)) by apply length_map.
  assert (Nj : tasksAt j new = spliceInsert (taskIndex destination) Undefined dest).
  { unfold new. now apply tasksAt_setTasksAt_eq with (b := jsonBlock bj). }
  assert (Others : forall k, k <> j -> new !! k = jsonBlock <$> s !! k).
  { intros k Hk. unfold new. rewrite setTasksAt_lookup_ne by auto.
    apply jsonCopy_lookup. }
  assert (Count : taskCount new = S (taskCount s)).
  { pose proof (taskCount_setTasksAt j
                  (spliceInsert (taskIndex destination) Undefined dest)
                  (jsonCopy s) _ Cj) as P1. fold new in P1.
    rewrite spliceInsert_length in P1.
    assert (L2 : length (tasks (jsonBlock bj)) = length dest).
    { unfold dest. rewrite (tasksAt_lookup s j bj Ej). reflexivity. }
    pose proof (taskCount_jsonCopy s). lia. }
  exists new. repeat split.
  - intros E. rewrite E in Count. lia.
  - exact Nj.
  - intros Hin. rewrite Nj.
    rewrite <- (relativeStart_inside (taskIndex destination) (length dest))
      by (rewrite Ld; exact Hin).
    apply spliceInsert_lookup.
  - rewrite Nj, spliceInsert_length, Ld. reflexivity.
  - exact Others.
  - intros k. destruct (decide (k = j)) as [->|Hk].
    + rewrite Nj, spliceInsert_length, Ld. lia.
    + unfold tasksAt at 2. rewrite (Others k Hk). unfold tasksAt.
      unfold Schedule in *. destruct (s !! k) as [b|]; simpl; [|lia].
      rewrite length_map. lia.
  - exact Count.
Qed.

Lemma reorderTask_source_beyond_end_witness :
  findBlock 1 twoBlocks = Some 0%nat
  /\ findBlock 2 twoBlocks = Some 1%nat
  /\ Z.of_nat (length (tasksAt 0 twoBlocks)) <= 2
  /\ exists new,
       reorderTask (mkRef 1 2) (mkRef 2 0) (Some twoBlocks) = Some new
       /\ tasksAt 1 new !! 0%nat = Some Undefined
       /\ taskCount new = S (taskCount twoBlocks).
Proof.
  do 2 (split; [reflexivity|]). split; [cbn; lia|].
  destruct (reorderTask_source_beyond_end twoBlocks (mkRef 1 2) (mkRef 2 0)
              0%nat 1%nat eq_refl eq_refl ltac:(cbn; lia))
    as (new & H1 & _ & _ & H4 & _ & _ & _ & H8).
  exists new. split; [exact H1|]. split; [apply H4; cbn; lia | exact H8].
Defined.

(** C9 (as stated) fails for a source index that is out of range on the
    negative side: splice counts it from the end, so index -1 removes the
    last task of block 1 and that task, not an undefined entry, arrives in
    block 2; block 1 shrinks and the number of entries stays the same. *)
Lemma reorderTask_negative_source_moves_last_task :
  findBlock 1 twoBlocks = Some 0%nat
  /\ findBlock 2 twoBlocks = Some 1%nat
  /\ arrayGet (tasksAt 0 twoBlocks) (-1) = None
  /\ reorderTask (mkRef 1 (-1)) (mkRef 2 0) (Some twoBlocks)
     = Some [ mkBlock 1 (lit "7:00 AM - 8:00 AM") (lit "Morning")
                      [Present packLunch];
              mkBlock 2 (lit "8:00 AM - 9:00 AM") (lit "Work")
                      [Present checkMail; Present writeReport] ]
  /\ ~ (exists new,
           reorderTask (mkRef 1 (-1)) (mkRef 2 0) (Some twoBlocks) = Some new
           /\ tasksAt 1 new !! 0%nat = Some Undefined
           /\ (length (tasksAt 0 twoBlocks) <= length (tasksAt 0 new))%nat).
Proof.
  do 4 (split; [reflexivity|]).
  intros (new & H & P & _). vm_compute in H. injection H as <-.
  vm_compute in P. discriminate P.
Qed.

(** C3.  Within one generation of a schedule the reminder of a block can
    fire twice.  The block starts at 9:00 AM and the lead is five minutes;
    the check at 8:56 fires; the user then edits a task text, which hands a
    new array to the display and empties the set of notified blocks; the
    check at 8:57 fires again for the same block.  Without the edit the
    second check stays silent. *)
Theorem reminder_fires_again_after_edit :
  let at_8_56 := (8 * 60 + 56) * 60000 in
  let at_8_57 := (8 * 60 + 57) * 60000 in
  map firedId
    (fst (run (mount [workBlock] 5 true)
              [ Tick 0 at_8_56;
                UpdateTaskText 0 0 (lit "Draft report");
                Tick 0 at_8_57 ]))
  = [0; 0]
  /\ map firedId
       (fst (run (mount [workBlock] 5 true) [Tick 0 at_8_56; Tick 0 at_8_57]))
     = [0].
Proof. split; vm_compute; reflexivity. Qed.

(** * Further properties of the code *)

(** ** Splitting and joining *)

Section SplitFacts.

Implicit Types (sep s : jsstring).

Lemma startsWith_app p s :
  startsWith p s = true -> s = p ++ drop (length p) s.
Proof.
  revert s. induction p as [|c p IH]; intros s H; [reflexivity|].
  destruct s as [|d s]; [discriminate|]. cbn [startsWith] in H.
  apply andb_true_iff in H as [E H]. apply N.eqb_eq in E. subst d.
  cbn [app length drop]. f_equal. now apply IH.
Qed.

Lemma join_cons_head sep c frag frags :
  join sep ((c :: frag) :: frags) = c :: join sep (frag :: frags).
Proof. destruct frags; reflexivity. Qed.

Lemma join_splitFrom sep skip s :
  sep <> [] -> join sep (splitFrom sep skip s) = drop skip s.
Proof.
  intros Hsep. revert skip. induction s as [|c s IH]; intros skip.
  - now destruct skip.
  - destruct skip as [|k]; cbn [splitFrom]; [|apply IH].
    destruct (startsWith sep (c :: s)) eqn:E.
    + apply startsWith_app in E.
      destruct sep as [|x sep']; [contradiction|].
      destruct (splitFrom (x :: sep') (Nat.pred (length (x :: sep'))) s)
        as [|r rs] eqn:R; [now apply splitFrom_nonempty in R|].
      change (join (x :: sep') ([] :: r :: rs))
        with ((x :: sep') ++ join (x :: sep') (r :: rs)).
      cbn [length drop] in E.
      pose proof (IH (Nat.pred (length (x :: sep')))) as J.
      cbn [length Nat.pred] in J, R. rewrite R in J. rewrite <- J in E.
      cbn [drop]. symmetry. exact E.
    + destruct (splitFrom sep 0 s) as [|frag frags] eqn:R;
        [now apply splitFrom_nonempty in R|].
      rewrite join_cons_head. cbn [drop]. f_equal.
      pose proof (IH 0%nat) as J. rewrite R in J. exact J.
Qed.

Lemma split_join_parts sep s : sep <> [] -> join sep (split sep s) = s.
Proof. intros H. unfold split. now rewrite join_splitFrom. Qed.

Lemma splitFrom_parts sep skip s frag x :
  frag ∈ splitFrom sep skip s -> x ∈ frag -> x ∈ s.
Proof.
  revert skip frag. induction s as [|c s IH]; intros skip frag Hf Hx.
  - cbn in Hf. apply list_elem_of_singleton in Hf. subst frag.
    now apply elem_of_nil in Hx.
  - destruct skip as [|k]; cbn [splitFrom] in Hf.
    + destruct (startsWith sep (c :: s)).
      * apply elem_of_cons in Hf as [-> | Hf];
          [now apply elem_of_nil in Hx|].
        right. eapply IH; eassumption.
      * destruct (splitFrom sep 0 s) as [|r rs] eqn:R.
        { apply list_elem_of_singleton in Hf. subst frag.
          apply list_elem_of_singleton in Hx. subst x. left. }
        apply elem_of_cons in Hf as [-> | Hf].
        { apply elem_of_cons in Hx as [-> | Hx]; [left|].
          right. apply (IH 0%nat r); [rewrite R; left | exact Hx]. }
        right. apply (IH 0%nat frag); [rewrite R; now right | exact Hx].
    + right. eapply IH; eassumption.
Qed.

(** Splitting at one code unit. *)
Lemma split_char_cons c d s :
  split [c] (d :: s)
  = if (c =? d)%N then [] :: split [c] s
    else match split [c] s with
         | frag :: frags => (d :: frag) :: frags
         | [] => [[d]]
         end.
Proof.
  unfold split. cbn [splitFrom startsWith length Nat.pred].
  now rewrite andb_true_r.
Qed.

Lemma split_char_free c s : Forall (fun frag => c ∉ frag) (split [c] s).
Proof.
  induction s as [|d s IH].
  - constructor; [apply not_elem_of_nil | constructor].
  - rewrite split_char_cons. destruct (N.eqb_spec c d) as [->|Hne].
    + constructor; [apply not_elem_of_nil | exact IH].
    + destruct (split [c] s) as [|frag frags].
      * constructor; [|constructor]. intros H.
        apply list_elem_of_singleton in H. contradiction.
      * inversion IH as [|? ? Hfrag Hfrags]; subst. constructor; [|assumption].
        intros H. apply elem_of_cons in H as [H|H]; [contradiction | auto].
Qed.

Lemma split_char_count c s :
  length (split [c] s) = S (length (List.filter (N.eqb c) s)).
Proof.
  induction s as [|d s IH]; [reflexivity|].
  rewrite split_char_cons. cbn [List.filter].
  destruct (c =? d)%N; cbn [length].
  - now rewrite IH.
  - destruct (split [c] s); cbn [length] in *; lia.
Qed.

Lemma split_char_absent c s : c ∉ s -> split [c] s = [s].
Proof.
  induction s as [|d s IH]; intros H; [reflexivity|].
  rewrite split_char_cons.
  destruct (N.eqb_spec c d) as [->|Hne]; [exfalso; apply H; left|].
  rewrite IH; [reflexivity|]. intros Hin. apply H. now right.
Qed.

Lemma split_char_first c pre post :
  c ∉ pre -> split [c] (pre ++ c :: post) = pre :: split [c] post.
Proof.
  induction pre as [|d pre IH]; intros H; cbn [app].
  - rewrite split_char_cons. now rewrite N.eqb_refl.
  - rewrite split_char_cons.
    destruct (N.eqb_spec c d) as [->|Hne]; [exfalso; apply H; left|].
    rewrite IH; [reflexivity|]. intros Hin. apply H. now right.
Qed.

Lemma includes_char c s : includes [c] s = true <-> c ∈ s.
Proof.
  induction s as [|d s IH]; cbn [includes startsWith].
  - split; [discriminate | intros H; now apply elem_of_nil in H].
  - rewrite andb_true_r, orb_true_iff, IH, N.eqb_eq, elem_of_cons. tauto.
Qed.

End SplitFacts.

(** X1.  Joining the pieces of a split with the separator gives the string
    back, for every non-empty separator. *)
Theorem split_join_roundtrip (sep s : jsstring) :
  sep <> [] -> join sep (split sep s) = s.
Proof. intros H. unfold split. now rewrite join_splitFrom. Qed.

Lemma split_join_roundtrip_witness :
  [c_star; c_star] <> []
  /\ join [c_star; c_star] (split [c_star; c_star] sampleDocument)
     = sampleDocument.
Proof.
  assert (H : [c_star; c_star] <> []) by discriminate.
  split; [exact H|]. exact (split_join_roundtrip _ sampleDocument H).
Defined.

(** Splitting at a single code unit, as the code does at the colon,
    the line feed and the dash: no piece holds the separator, there is one
    piece more than there are separators, and a string without the separator
    comes back as its only piece. *)
Theorem split_at_char (c : char) (s : jsstring) :
  Forall (fun frag => c ∉ frag) (split [c] s)
  /\ length (split [c] s) = S (length (List.filter (N.eqb c) s))
  /\ (c ∉ s -> split [c] s = [s]).
Proof.
  split; [apply split_char_free|].
  split; [apply split_char_count | apply split_char_absent].
Qed.

Lemma split_at_char_witness :
  (c_dash ∉ lit "7:00 AM")
  /\ split [c_dash] (lit "7:00 AM") = [lit "7:00 AM"].
Proof.
  assert (H : c_dash ∉ lit "7:00 AM").
  { intros H. apply includes_char in H. vm_compute in H. discriminate H. }
  split; [exact H|].
  destruct (split_at_char c_dash (lit "7:00 AM")) as (_ & _ & A).
  exact (A H).
Defined.

(** ** Trimming *)

Section TrimFacts.

Context {A : Type} (p : A -> bool).

Lemma dropWhile_head (l : list A) x r : dropWhile p l = x :: r -> p x = false.
Proof.
  induction l as [|y l IH]; cbn [dropWhile]; [discriminate|].
  destruct (p y) eqn:E; [exact IH|]. now intros [= <- <-].
Qed.

Lemma dropWhile_idem (l : list A) : dropWhile p (dropWhile p l) = dropWhile p l.
Proof.
  destruct (dropWhile p l) as [|x r] eqn:E; [reflexivity|].
  apply dropWhile_head in E. cbn [dropWhile]. now rewrite E.
Qed.

Lemma dropWhile_nil (l : list A) : dropWhile p l = [] -> forallb p l = true.
Proof.
  induction l as [|y l IH]; cbn [dropWhile forallb]; [reflexivity|].
  destruct (p y); [exact IH | discriminate].
Qed.

Lemma forallb_reverse (l : list A) : forallb p (rev l) = forallb p l.
Proof.
  induction l as [|x l IH]; [reflexivity|]. cbn [rev forallb].
  rewrite forallb_app, IH. cbn [forallb]. rewrite andb_true_r.
  apply andb_comm.
Qed.

End TrimFacts.

Lemma trimEnd_idem s : trimEnd (trimEnd s) = trimEnd s.
Proof. unfold trimEnd. now rewrite rev_involutive, dropWhile_idem. Qed.

Lemma trimEnd_prefix s : exists b, s = trimEnd s ++ b.
Proof.
  unfold trimEnd. destruct (dropWhile_suffix isWhiteSpace (rev s)) as [a Ha].
  exists (rev a). rewrite <- rev_app_distr, <- Ha. now rewrite rev_involutive.
Qed.

Lemma trimStart_trimEnd_trimStart s :
  trimStart (trimEnd (trimStart s)) = trimEnd (trimStart s).
Proof.
  unfold trimStart.
  destruct (dropWhile isWhiteSpace s) as [|x r] eqn:E; [reflexivity|].
  apply dropWhile_head in E.
  destruct (trimEnd_prefix (x :: r)) as [b Hb].
  destruct (trimEnd (x :: r)) as [|y u]; [reflexivity|].
  injection Hb as <- _. now apply dropWhile_stop.
Qed.

Lemma trim_idem s : trim (trim s) = trim s.
Proof.
  unfold trim at 1. unfold trim at 1.
  now rewrite trimStart_trimEnd_trimStart, trimEnd_idem.
Qed.

Lemma trim_empty_all_white s :
  trim s = [] -> forallb isWhiteSpace s = true.
Proof.
  unfold trim, trimEnd, trimStart. intros H.
  apply (f_equal (@rev char)) in H. rewrite rev_involutive in H. cbn in H.
  apply dropWhile_nil in H. rewrite forallb_reverse in H.
  rewrite <- (takeWhile_dropWhile isWhiteSpace s), forallb_app.
  now rewrite takeWhile_all, H.
Qed.

Lemma trim_ends s x mid y :
  trim s = x :: mid ++ [y] -> isWhiteSpace x = false /\ isWhiteSpace y = false.
Proof.
  intros H. split.
  - pose proof (trimStart_trimEnd_trimStart s) as T. fold (trim s) in T.
    rewrite H in T. unfold trimStart in T.
    now apply dropWhile_head in T.
  - unfold trim, trimEnd in H. apply (f_equal (@rev char)) in H.
    rewrite rev_involutive in H. change (x :: mid ++ [y]) with ((x :: mid) ++ [y]) in H.
    rewrite rev_app_distr in H. cbn [rev app] in H.
    now apply dropWhile_head in H.
Qed.

Lemma trim_fixed_ends x mid y :
  isWhiteSpace x = false -> isWhiteSpace y = false ->
  trim (x :: mid ++ [y]) = x :: mid ++ [y].
Proof.
  intros Hx Hy. unfold trim, trimStart. rewrite (dropWhile_stop _ _ _ Hx).
  unfold trimEnd. change (x :: mid ++ [y]) with ((x :: mid) ++ [y]).
  rewrite rev_app_distr. cbn [rev app].
  rewrite (dropWhile_stop _ _ _ Hy).
  change (y :: rev mid ++ [x]) with (rev [y] ++ rev (x :: mid)).
  now rewrite <- rev_app_distr, rev_involutive.
Qed.

Lemma trim_fixed_single x : isWhiteSpace x = false -> trim [x] = [x].
Proof.
  intros Hx. unfold trim, trimStart, trimEnd. rewrite (dropWhile_stop _ _ _ Hx).
  cbn [rev app]. now rewrite (dropWhile_stop _ _ _ Hx).
Qed.

(** Trimming twice is trimming once, a trimmed string neither starts
    nor ends with white space, and only blank strings trim to the empty
    string. *)
Theorem trim_properties (s : jsstring) :
  trim (trim s) = trim s
  /\ (forall x rest, trim s = x :: rest -> isWhiteSpace x = false)
  /\ (forall front y, trim s = front ++ [y] -> isWhiteSpace y = false)
  /\ (trim s = [] <-> forallb isWhiteSpace s = true).
Proof.
  split; [apply trim_idem|]. split; [|split].
  - intros x rest H.
    pose proof (trimStart_trimEnd_trimStart s) as T. fold (trim s) in T.
    rewrite H in T. unfold trimStart in T. now apply dropWhile_head in T.
  - intros front y H. unfold trim, trimEnd in H.
    apply (f_equal (@rev char)) in H. rewrite rev_involutive in H.
    rewrite rev_app_distr in H. cbn [rev app] in H.
    now apply dropWhile_head in H.
  - split; [apply trim_empty_all_white|].
    intros H. unfold trim, trimStart.
    rewrite <- (app_nil_r s), (dropWhile_all _ _ _ H). reflexivity.
Qed.

Lemma trim_properties_witness :
  trim (lit "  Morning ") = 77%N :: lit "orning"
  /\ isWhiteSpace 77%N = false.
Proof.
  assert (H : trim (lit "  Morning ") = 77%N :: lit "orning") by reflexivity.
  split; [exact H|].
  destruct (trim_properties (lit "  Morning ")) as (_ & A & _).
  exact (A _ _ H).
Defined.

(** ** What the parser gives back *)

Section ParserOutput.

Lemma isBlockFragment_colon frag :
  isBlockFragment frag = includes [c_colon] frag.
Proof.
  unfold isBlockFragment. destruct (includes [c_colon] frag) eqn:E;
    [|apply andb_false_r].
  rewrite andb_true_r. apply includes_char in E.
  destruct (trim frag) as [|x r] eqn:T; [|reflexivity].
  apply trim_empty_all_white in T.
  rewrite forallb_forall in T. apply list_elem_of_In in E.
  specialize (T _ E). discriminate T.
Qed.

Lemma filter_same {A} (p q : A -> bool) (l : list A) :
  (forall x, p x = q x) -> List.filter p l = List.filter q l.
Proof.
  intros H. induction l as [|x l IH]; [reflexivity|].
  cbn [List.filter]. now rewrite H, IH.
Qed.

Lemma filter_none {A} (p : A -> bool) (l : list A) :
  (forall x, x ∈ l -> p x = false) -> List.filter p l = [].
Proof.
  induction l as [|x l IH]; intros H; [reflexivity|].
  cbn [List.filter]. rewrite (H x) by left. apply IH.
  intros y Hy. apply H. now right.
Qed.

Lemma fragments_colon content :
  fragments content
  = List.filter (includes [c_colon]) (split [c_star; c_star] content).
Proof. apply filter_same, isBlockFragment_colon. Qed.

Lemma fragments_without_colon content :
  includes [c_colon] content = false -> fragments content = [].
Proof.
  intros H. rewrite fragments_colon. apply filter_none.
  intros frag Hf. destruct (includes [c_colon] frag) eqn:E; [|reflexivity].
  apply includes_char in E.
  assert (Hc : c_colon ∈ content) by (eapply splitFrom_parts; eassumption).
  apply includes_char in Hc. congruence.
Qed.

Lemma mapIndexed_Forall2 {A B} (f : A -> nat -> result B) i l bs :
  mapIndexed f i l = Ok bs ->
  Forall2 (fun x b => exists k, f x k = Ok b) l bs.
Proof.
  revert i bs. induction l as [|x l IH]; intros i bs; cbn [mapIndexed].
  - intros [= <-]. constructor.
  - destruct (f x i) as [y|] eqn:E; cbn [rbind]; [|discriminate].
    destruct (mapIndexed f (S i) l) as [ys|] eqn:R; cbn [rbind];
      [|discriminate].
    intros [= <-]. constructor; [eauto | eapply IH, R].
Qed.

Lemma timeTitle_trimmed line tm ttl :
  timeTitle line = (tm, ttl) -> isTrimmed tm /\ isTrimmed ttl.
Proof.
  unfold timeTitle, isTrimmed.
  assert (F : forall r : jsstring * jsstring,
             match split [c_colon] line with
             | first :: parts => (trim first, trim (join [c_colon] parts))
             | [] => ([], trim [])
             end = r -> trim (fst r) = fst r /\ trim (snd r) = snd r).
  { intros r <-. destruct (split [c_colon] line); cbn [fst snd];
      split; try apply trim_idem; reflexivity. }
  destruct (headerMatch line) as [[g1 g2]|].
  - destruct (negb (isEmpty g1) && negb (isEmpty g2)).
    + intros [= <- <-]. split; apply trim_idem.
    + intros H. apply (F _ H).
  - intros H. apply (F _ H).
Qed.

Lemma parseTasks_clean taskLines :
  Forall (fun e => exists t, e = Present t /\ text t <> []
                             /\ isTrimmed (text t) /\ notes t = [])
         (parseTasks taskLines).
Proof.
  unfold parseTasks. apply Forall_forall. intros e He.
  apply list_elem_of_In, in_map_iff in He as (txt & <- & Hin).
  apply filter_In in Hin as [Hin Hne].
  apply in_map_iff in Hin as (line & <- & _).
  eexists. split; [reflexivity|]. cbn [text notes]. split; [|split].
  - intros E. rewrite E in Hne. discriminate Hne.
  - apply trim_idem.
  - reflexivity.
Qed.

Lemma parseBlock_clean block index b :
  parseBlock block index = Ok b -> cleanBlock b.
Proof.
  unfold parseBlock. destruct (split [c_newline] (trim block)) as [|l ls];
    [discriminate|].
  destruct (timeTitle l) as [tm tt] eqn:E. intros [= <-].
  apply timeTitle_trimmed in E as [? ?].
  repeat split; cbn [time title tasks]; auto using parseTasks_clean.
Qed.

Lemma parsePlannerContent_clean content bs :
  parsePlannerContent content = Ok bs -> Forall cleanBlock bs.
Proof.
  unfold parsePlannerContent. destruct (isEmpty content).
  - intros [= <-]. constructor.
  - intros H. apply mapIndexed_Forall2 in H.
    induction H as [|x b l bs' [k Hk] _ IH]; constructor; [|exact IH].
    eapply parseBlock_clean, Hk.
Qed.

End ParserOutput.

(** X2.  The parser gives one block per fragment between bold markers that
    holds a colon, nothing else decides the number of blocks; a document
    without any colon gives no block. *)
Theorem parsePlannerContent_block_count (content : jsstring) :
  exists bs,
    parsePlannerContent content = Ok bs
    /\ length bs
       = length (List.filter (includes [c_colon])
                             (split [c_star; c_star] content))
    /\ (includes [c_colon] content = false -> bs = []).
Proof.
  destruct (parsePlannerContent_ok content) as (bs & H & Hids).
  exists bs. split; [exact H|].
  assert (L : length bs = length (fragments content)).
  { apply (f_equal (@length Z)) in Hids.
    now rewrite !length_map, length_seq in Hids. }
  split.
  - now rewrite L, fragments_colon.
  - intros Hno. rewrite (fragments_without_colon _ Hno) in L.
    now destruct bs.
Qed.

Lemma parsePlannerContent_block_count_witness :
  includes [c_colon] (lit "**Morning** then **Work**") = false
  /\ parsePlannerContent (lit "**Morning** then **Work**") = Ok [].
Proof.
  assert (H : includes [c_colon] (lit "**Morning** then **Work**") = false)
    by reflexivity.
  split; [exact H|].
  destruct (parsePlannerContent_block_count (lit "**Morning** then **Work**"))
    as (bs & P & _ & E).
  rewrite P. f_equal. exact (E H).
Defined.

(** X3.  In every block the parser returns, the time and the title carry no
    white space at either end, and every task entry is a task with a
    non-empty text without white space at either end and with empty notes:
    the parser never stores an undefined or a blank task. *)
Theorem parsePlannerContent_output_clean (content : jsstring) :
  exists bs,
    parsePlannerContent content = Ok bs
    /\ Forall (fun b =>
                 isTrimmed (time b) /\ isTrimmed (title b)
                 /\ Forall (fun e => exists t, e = Present t /\ text t <> []
                                               /\ isTrimmed (text t)
                                               /\ notes t = [])
                           (tasks b))
              bs.
Proof.
  destruct (parsePlannerContent_ok content) as (bs & H & _).
  exists bs. split; [exact H|]. exact (parsePlannerContent_clean _ _ H).
Qed.

(** ** Time and title of a header line *)

Section HeaderFacts.

Lemma headerTail_Some_mark s r :
  headerTail s = Some r ->
  exists a t, s = a :: c_M :: t /\ (a = c_A \/ a = c_P).
Proof.
  unfold headerTail. destruct s as [|a [|m t]]; try discriminate.
  destruct (((a =? c_A) || (a =? c_P)) && (m =? c_M))%N eqn:E; [|discriminate].
  intros _. apply andb_true_iff in E as [Ea Em].
  apply N.eqb_eq in Em. subst m. exists a, t. split; [reflexivity|].
  apply orb_true_iff in Ea. rewrite !N.eqb_eq in Ea. exact Ea.
Qed.

Lemma noTailMatch_tail c s : noTailMatch (c :: s) -> noTailMatch s.
Proof. intros H pre t E. apply (H (c :: pre)). now rewrite E. Qed.

Lemma noTailMatch_cons c s :
  c <> c_A -> c <> c_P -> noTailMatch s -> noTailMatch (c :: s).
Proof.
  intros HA HP H pre t E. destruct pre as [|x pre].
  - cbn [app] in E. subst t.
    destruct (headerTail (c :: s)) as [r|] eqn:T; [|reflexivity].
    apply headerTail_Some_mark in T as (a & t' & [= -> _] & [->| ->]);
      contradiction.
  - injection E as -> E. now apply (H pre).
Qed.

Lemma noTailMatch_unmarked s : ~ hasMeridiemMark s -> noTailMatch s.
Proof.
  intros H pre t E. destruct (headerTail t) as [r|] eqn:T; [|reflexivity].
  exfalso. apply H.
  apply headerTail_Some_mark in T as (a & t' & -> & Ha).
  exists pre, a, t'. split; [exact E | exact Ha].
Qed.

Lemma noTailMatch_app u v :
  Forall (fun c => c <> c_A /\ c <> c_P) u -> noTailMatch v ->
  noTailMatch (u ++ v).
Proof.
  intros Hu Hv. induction Hu as [|c u [HA HP] _ IH]; [exact Hv|].
  cbn [app]. now apply noTailMatch_cons.
Qed.

Lemma headerAt_None s : noTailMatch s -> headerAt s = None.
Proof.
  induction s as [|c s IH]; intros H; [reflexivity|]. cbn [headerAt].
  rewrite (IH (noTailMatch_tail _ _ H)).
  destruct (isLineTerminator c); apply (H []); reflexivity.
Qed.

Lemma headerMatch_None s : noTailMatch s -> headerMatch s = None.
Proof.
  induction s as [|c s IH]; intros H; [reflexivity|]. cbn [headerMatch].
  rewrite (headerAt_None _ H). apply IH. eapply noTailMatch_tail, H.
Qed.

Lemma white_space_no_letter c :
  isWhiteSpace c = true -> c <> c_A /\ c <> c_P.
Proof. intros H. split; intros ->; discriminate H. Qed.

Lemma takeWhile_whole {A} (p : A -> bool) (l : list A) :
  forallb p l = true -> takeWhile p l = l.
Proof.
  induction l as [|x l IH]; cbn [forallb takeWhile]; [reflexivity|].
  intros H. apply andb_true_iff in H as [-> H]. now rewrite IH.
Qed.

Lemma forallb_dropWhile {A} (p q : A -> bool) (l : list A) :
  forallb p l = true -> forallb p (dropWhile q l) = true.
Proof.
  induction l as [|x l IH]; cbn [forallb dropWhile]; [reflexivity|].
  intros H. apply andb_true_iff in H as [Hx H].
  destruct (q x); [now apply IH|]. cbn [forallb]. now rewrite Hx, H.
Qed.

Lemma trim_trimStart s : trim (dropWhile isWhiteSpace s) = trim s.
Proof. unfold trim, trimStart. now rewrite dropWhile_idem. Qed.

Lemma headerAt_stop c s :
  headerAt s = None -> headerAt (c :: s) = headerTail (c :: s).
Proof.
  intros H. cbn [headerAt]. rewrite H. now destruct (isLineTerminator c).
Qed.

Lemma headerAt_prefix tm s g1 g2 :
  forallb (fun c => negb (isLineTerminator c)) tm = true ->
  headerAt s = Some (g1, g2) -> headerAt (tm ++ s) = Some (tm ++ g1, g2).
Proof.
  intros Htm Hs. induction tm as [|c tm IH]; [exact Hs|].
  cbn [forallb] in Htm. apply andb_true_iff in Htm as [Hc Htm].
  apply negb_true_iff in Hc. cbn [app headerAt]. rewrite Hc.
  now rewrite (IH Htm).
Qed.

(** The header pattern on a line of the shape time, colon, title. *)
Lemma headerMatch_line tm a ws1 ws2 ttl :
  forallb (fun c => negb (isLineTerminator c)) tm = true ->
  a = c_A \/ a = c_P ->
  forallb isWhiteSpace ws1 = true -> forallb isWhiteSpace ws2 = true ->
  forallb (fun c => negb (isLineTerminator c)) ttl = true ->
  ~ hasMeridiemMark ttl ->
  headerMatch (tm ++ [a; c_M] ++ ws1 ++ [c_colon] ++ ws2 ++ ttl)
  = Some (tm ++ [a; c_M], dropWhile isWhiteSpace ttl).
Proof.
  intros Htm Ha H1 H2 Httl Hno.
  set (rest := ws1 ++ [c_colon] ++ ws2 ++ ttl).
  assert (Tail : headerTail (a :: c_M :: rest)
                 = Some ([a; c_M], dropWhile isWhiteSpace ttl)).
  { unfold headerTail, rest.
    replace (((a =? c_A) || (a =? c_P)) && (c_M =? c_M))%N with true
      by (destruct Ha as [-> | ->]; reflexivity).
    rewrite (dropWhile_all _ _ _ H1). cbn [app dropWhile].
    change (isWhiteSpace c_colon) with false. cbv iota.
    rewrite N.eqb_refl, (dropWhile_all _ _ _ H2).
    now rewrite takeWhile_whole by now apply forallb_dropWhile. }
  assert (Later : noTailMatch (c_M :: rest)).
  { apply noTailMatch_cons; [discriminate | discriminate|].
    unfold rest. apply noTailMatch_app.
    { apply Forall_forall. intros c Hc. apply white_space_no_letter.
      rewrite forallb_forall in H1. apply H1. now apply list_elem_of_In. }
    cbn [app]. apply noTailMatch_cons; [discriminate | discriminate|].
    apply noTailMatch_app; [|now apply noTailMatch_unmarked].
    apply Forall_forall. intros c Hc. apply white_space_no_letter.
    rewrite forallb_forall in H2. apply H2. now apply list_elem_of_In. }
  assert (At : headerAt (tm ++ a :: c_M :: rest)
               = Some (tm ++ [a; c_M], dropWhile isWhiteSpace ttl)).
  { apply headerAt_prefix; [exact Htm|].
    rewrite headerAt_stop; [exact Tail | now apply headerAt_None]. }
  change (tm ++ [a; c_M] ++ rest) with (tm ++ a :: c_M :: rest).
  destruct (tm ++ a :: c_M :: rest); cbn [headerMatch]; now rewrite At.
Qed.

End HeaderFacts.

Lemma meridiemMarkb_cons c s :
  meridiemMarkb s = true -> meridiemMarkb (c :: s) = true.
Proof.
  destruct s as [|x r]; [discriminate|]. intros H.
  change (meridiemMarkb (c :: x :: r))
    with ((((c =? c_A) || (c =? c_P)) && (x =? c_M))%N
          || meridiemMarkb (x :: r)).
  rewrite H. apply orb_true_r.
Qed.

Lemma meridiemMarkb_complete s : hasMeridiemMark s -> meridiemMarkb s = true.
Proof.
  intros (pre & a & post & -> & Ha). induction pre as [|c pre IH].
  - cbn [app meridiemMarkb]. destruct Ha as [-> | ->]; reflexivity.
  - cbn [app]. now apply meridiemMarkb_cons.
Qed.

(** X4.  On a header line of the shape time, colon, title, where the time
    ends in AM or PM and the title holds neither AM nor PM, the time is
    everything up to that AM or PM and the title is everything after the
    colon, both trimmed: colons inside the time or inside the title do not
    move the cut. *)
Theorem timeTitle_primary (tm : jsstring) (a : char) (ws1 ws2 ttl : jsstring) :
  forallb (fun c => negb (isLineTerminator c)) tm = true ->
  a = c_A \/ a = c_P ->
  forallb isWhiteSpace ws1 = true -> forallb isWhiteSpace ws2 = true ->
  forallb (fun c => negb (isLineTerminator c)) ttl = true ->
  ~ hasMeridiemMark ttl ->
  trim ttl <> [] ->
  timeTitle (tm ++ [a; c_M] ++ ws1 ++ [c_colon] ++ ws2 ++ ttl)
  = (trim (tm ++ [a; c_M]), trim ttl).
Proof.
  intros Htm Ha H1 H2 Httl Hno Hne. unfold timeTitle.
  rewrite (headerMatch_line tm a ws1 ws2 ttl Htm Ha H1 H2 Httl Hno).
  assert (G1 : isEmpty (tm ++ [a; c_M]) = false) by now destruct tm.
  assert (G2 : isEmpty (dropWhile isWhiteSpace ttl) = false).
  { destruct (dropWhile isWhiteSpace ttl) eqn:E; [|reflexivity].
    exfalso. apply Hne. unfold trim, trimStart. now rewrite E. }
  rewrite G1, G2. cbn [negb andb]. now rewrite trim_trimStart.
Qed.

Lemma timeTitle_primary_witness :
  ~ hasMeridiemMark (lit "Work: Deep Focus")
  /\ timeTitle (lit "8:00 AM - 9:00 AM : Work: Deep Focus")
     = (lit "8:00 AM - 9:00 AM", lit "Work: Deep Focus").
Proof.
  assert (H : ~ hasMeridiemMark (lit "Work: Deep Focus")).
  { intros H. apply meridiemMarkb_complete in H. discriminate H. }
  split; [exact H|].
  exact (timeTitle_primary (lit "8:00 AM - 9:00 ") c_A (lit " ") (lit " ")
           (lit "Work: Deep Focus") eq_refl (or_introl eq_refl) eq_refl
           eq_refl eq_refl H ltac:(discriminate)).
Defined.

(** X5.  On a line that holds neither AM nor PM the cut is at the first
    colon: the time is what stands before it and the title all that stands
    after it, later colons included, both trimmed; without any colon the
    whole line is the time and the title is empty. *)
Theorem timeTitle_fallback (line : jsstring) :
  ~ hasMeridiemMark line ->
  (forall pre post,
      line = pre ++ c_colon :: post -> c_colon ∉ pre ->
      timeTitle line = (trim pre, trim post))
  /\ (c_colon ∉ line -> timeTitle line = (trim line, [])).
Proof.
  intros Hno.
  assert (M : headerMatch line = None)
    by now apply headerMatch_None, noTailMatch_unmarked.
  split.
  - intros pre post -> Hpre. unfold timeTitle. rewrite M.
    rewrite (split_char_first _ _ _ Hpre).
    now rewrite (split_join_parts [c_colon] post) by discriminate.
  - intros Hline. unfold timeTitle. rewrite M.
    now rewrite (split_char_absent _ _ Hline).
Qed.

Lemma timeTitle_fallback_witness :
  ~ hasMeridiemMark (lit "Lunch : Soup: Tomato")
  /\ (c_colon ∉ lit "Lunch ")
  /\ timeTitle (lit "Lunch : Soup: Tomato") = (lit "Lunch", lit "Soup: Tomato").
Proof.
  assert (H : ~ hasMeridiemMark (lit "Lunch : Soup: Tomato")).
  { intros H. apply meridiemMarkb_complete in H. discriminate H. }
  assert (C : c_colon ∉ lit "Lunch ").
  { intros C. apply includes_char in C. discriminate C. }
  split; [exact H|]. split; [exact C|].
  destruct (timeTitle_fallback (lit "Lunch : Soup: Tomato") H) as [F _].
  exact (F (lit "Lunch ") (lit " Soup: Tomato") eq_refl C).
Defined.

(** ** Clock values *)

Section ClockFacts.

Lemma timeAt_exact h mi ws a l post :
  (length h = 1 \/ length h = 2)%nat -> forallb isDigit h = true ->
  length mi = 2%nat -> forallb isDigit mi = true ->
  forallb isWhiteSpace ws = true ->
  isMeridiemLetter a = true -> isLetterM l = true ->
  timeAt (h ++ c_colon :: mi ++ ws ++ [a; l] ++ post) = Some (h, mi, [a; l]).
Proof.
  intros Hh Hd Hlen Hmi Hws Ha Hl.
  assert (R : forall hh, timeRest hh
                (c_colon :: mi ++ ws ++ [a; l] ++ post) = Some (hh, mi, [a; l]))
    by (intros; now apply timeRest_complete).
  destruct h as [|d1 [|d2 [|? ?]]]; cbn [length] in Hh; try lia.
  - cbn [forallb] in Hd. rewrite andb_true_r in Hd.
    cbn [app]. unfold timeAt. rewrite Hd.
    change (isDigit c_colon) with false. cbn [andb]. now rewrite R.
  - cbn [forallb] in Hd. rewrite andb_true_r in Hd.
    apply andb_true_iff in Hd as [Hd1 Hd2].
    cbn [app]. unfold timeAt. rewrite Hd1, Hd2. cbn [andb]. now rewrite R.
Qed.

Lemma timeAt_groups s hs ms ap :
  timeAt s = Some (hs, ms, ap) ->
  (length hs = 1 \/ length hs = 2)%nat /\ forallb isDigit hs = true
  /\ length ms = 2%nat /\ forallb isDigit ms = true.
Proof.
  assert (G : forall h t,
             timeRest h t = Some (hs, ms, ap) ->
             hs = h /\ length ms = 2%nat /\ forallb isDigit ms = true).
  { intros h t H. apply timeRest_sound in H
      as (mi & ws & a & l & rest & [= -> -> ->] & _ & ? & ? & _). auto. }
  unfold timeAt. destruct s as [|d1 t]; [discriminate|].
  destruct (match d1 :: t with
            | d1 :: d2 :: t =>
                if isDigit d1 && isDigit d2 then timeRest [d1; d2] t else None
            | _ => None
            end) as [r2|] eqn:Two.
  - intros [= ->]. destruct t as [|d2 t]; [discriminate|].
    destruct (isDigit d1 && isDigit d2) eqn:E; [|discriminate].
    apply G in Two as (-> & ? & ?). cbn [length forallb].
    rewrite andb_true_r. auto.
  - destruct (isDigit d1) eqn:E; [|discriminate].
    intros H. apply G in H as (-> & ? & ?). cbn [length forallb].
    rewrite E. auto.
Qed.

Lemma timeMatch_groups s hs ms ap :
  timeMatch s = Some (hs, ms, ap) ->
  (length hs = 1 \/ length hs = 2)%nat /\ forallb isDigit hs = true
  /\ length ms = 2%nat /\ forallb isDigit ms = true.
Proof.
  induction s as [|c s IH]; cbn [timeMatch].
  - destruct (timeAt []) eqn:E; [discriminate E | discriminate].
  - destruct (timeAt (c :: s)) as [r|] eqn:E; [|exact IH].
    intros [= ->]. eapply timeAt_groups, E.
Qed.

Lemma digitValue_bound c : isDigit c = true -> 0 <= digitValue c <= 9.
Proof.
  unfold isDigit, digitValue. intros H. apply andb_true_iff in H as [H1 H2].
  apply N.leb_le in H1, H2. lia.
Qed.

Lemma parseInt_bound s :
  (length s = 1 \/ length s = 2)%nat -> forallb isDigit s = true ->
  0 <= parseInt s <= 99.
Proof.
  intros Hlen Hd. destruct s as [|d1 [|d2 [|? ?]]]; cbn [length] in Hlen;
    try lia; cbn [forallb] in Hd; rewrite ?andb_true_r in Hd.
  - apply digitValue_bound in Hd. unfold parseInt. cbn [fold_left]. lia.
  - apply andb_true_iff in Hd as [H1 H2].
    apply digitValue_bound in H1, H2. unfold parseInt. cbn [fold_left]. lia.
Qed.

Lemma period_is_PM a l :
  isMeridiemLetter a = true -> isLetterM l = true ->
  eqb (toUpperCase [a; l]) (lit "PM") = ((a =? c_P) || (a =? c_p))%N
  /\ eqb (toUpperCase [a; l]) (lit "AM") = negb ((a =? c_P) || (a =? c_p))%N.
Proof.
  unfold isMeridiemLetter, isLetterM. intros Ha Hl.
  rewrite !orb_true_iff, !N.eqb_eq in Ha. rewrite orb_true_iff, !N.eqb_eq in Hl.
  destruct Ha as [[[-> | ->] | ->] | ->], Hl as [-> | ->]; split; reflexivity.
Qed.

Lemma parseClock_trim s : parseClock (trim s) = parseClock s.
Proof.
  unfold parseClock. rewrite trim_idem.
  destruct s as [|c s]; [reflexivity|]. cbn [isEmpty].
  destruct (trim (c :: s)) as [|x r]; reflexivity.
Qed.

Lemma parseTime_trim today s : parseTime today (trim s) = parseTime today s.
Proof. unfold parseTime. now rewrite parseClock_trim. Qed.

End ClockFacts.

(** X6.  On a string that is exactly a time text, [parseTime] reads the
    minutes as written and turns the hour into the 24-hour clock: with PM,
    in either case, an hour below 12 gains 12 and other hours stay; with AM
    the hour 12 becomes 0 and other hours stay. *)
Theorem parseClock_time_text (h mi ws : jsstring) (a l : char) :
  (length h = 1 \/ length h = 2)%nat -> forallb isDigit h = true ->
  length mi = 2%nat -> forallb isDigit mi = true ->
  forallb isWhiteSpace ws = true ->
  isMeridiemLetter a = true -> isLetterM l = true ->
  parseClock (h ++ [c_colon] ++ mi ++ ws ++ [a; l])
  = Some (to24 (parseInt h) a, parseInt mi).
Proof.
  intros Hh Hd Hlen Hmi Hws Ha Hl.
  set (s := h ++ [c_colon] ++ mi ++ ws ++ [a; l]).
  assert (At : timeAt s = Some (h, mi, [a; l])).
  { pose proof (timeAt_exact h mi ws a l [] Hh Hd Hlen Hmi Hws Ha Hl) as T.
    rewrite app_nil_r in T. exact T. }
  assert (Hs : exists d mid, s = d :: mid ++ [l] /\ isDigit d = true).
  { unfold s. destruct h as [|d h']; cbn [length] in Hh; [lia|].
    cbn [forallb] in Hd. apply andb_true_iff in Hd as [Hd1 _].
    exists d, (h' ++ [c_colon] ++ mi ++ ws ++ [a]). split; [|exact Hd1].
    cbn [app]. f_equal. reassoc. }
  destruct Hs as (d & mid & Es & Hd1).
  assert (T : trim s = s).
  { rewrite Es. apply trim_fixed_ends;
      [now apply digit_not_white_space | now apply letterM_not_white_space]. }
  unfold parseClock. rewrite T.
  replace (isEmpty s) with false by now rewrite Es.
  replace (timeMatch s) with (Some (h, mi, [a; l]))
    by (rewrite Es in *; cbn [timeMatch]; now rewrite At).
  destruct (period_is_PM a l Ha Hl) as [-> ->]. unfold to24.
  destruct ((a =? c_P) || (a =? c_p))%N; cbn [negb andb]; [|reflexivity].
  now destruct (parseInt h <? 12).
Qed.

Lemma parseClock_time_text_witness :
  parseClock (lit "11:45 pm") = Some (23, 45).
Proof.
  exact (parseClock_time_text (lit "11") (lit "45") (lit " ") c_p c_m
           (or_intror eq_refl) eq_refl eq_refl eq_refl eq_refl eq_refl eq_refl).
Defined.

Section MatchFacts.

Lemma timeAt_text s hs ms ap :
  timeAt s = Some (hs, ms, ap) ->
  exists ws a l post,
    ap = [a; l]
    /\ s = hs ++ c_colon :: ms ++ ws ++ [a; l] ++ post
    /\ forallb isWhiteSpace ws = true
    /\ isMeridiemLetter a = true /\ isLetterM l = true.
Proof.
  assert (G : forall h t,
             timeRest h t = Some (hs, ms, ap) ->
             hs = h
             /\ exists ws a l post,
                  ap = [a; l]
                  /\ t = c_colon :: ms ++ ws ++ [a; l] ++ post
                  /\ forallb isWhiteSpace ws = true
                  /\ isMeridiemLetter a = true /\ isLetterM l = true).
  { intros h t H. apply timeRest_sound in H
      as (mi & ws & a & l & rest & [= -> -> ->] & -> & _ & _ & Hws & Ha & Hl).
    split; [reflexivity|]. exists ws, a, l, rest. auto. }
  unfold timeAt. destruct s as [|d1 t]; [discriminate|].
  destruct (match d1 :: t with
            | d1 :: d2 :: t =>
                if isDigit d1 && isDigit d2 then timeRest [d1; d2] t else None
            | _ => None
            end) as [r2|] eqn:Two.
  - intros [= ->]. destruct t as [|d2 t]; [discriminate|].
    destruct (isDigit d1 && isDigit d2); [|discriminate].
    apply G in Two as (-> & ws & a & l & post & -> & -> & ?).
    exists ws, a, l, post. auto.
  - destruct (isDigit d1); [|discriminate].
    intros H. apply G in H as (-> & ws & a & l & post & -> & -> & ?).
    exists ws, a, l, post. auto.
Qed.

Lemma timeMatch_text s hs ms ap :
  timeMatch s = Some (hs, ms, ap) ->
  exists pre ws a l post,
    ap = [a; l]
    /\ s = pre ++ (hs ++ [c_colon] ++ ms ++ ws ++ [a; l]) ++ post
    /\ forallb isWhiteSpace ws = true
    /\ isMeridiemLetter a = true /\ isLetterM l = true.
Proof.
  induction s as [|c s IH]; cbn [timeMatch].
  - destruct (timeAt []) eqn:E; [discriminate E | discriminate].
  - destruct (timeAt (c :: s)) as [r|] eqn:E.
    + intros [= ->].
      apply timeAt_text in E as (ws & a & l & post & -> & E & ?).
      exists [], ws, a, l, post. split; [reflexivity|].
      split; [|assumption]. rewrite E. cbn [app]. reassoc.
    + intros H. apply IH in H as (pre & ws & a & l & post & -> & -> & ?).
      exists (c :: pre), ws, a, l, post. auto.
Qed.

Lemma to24_bound x a : 0 <= x <= 99 -> 0 <= to24 x a <= 99.
Proof.
  intros B. unfold to24.
  destruct ((a =? c_P) || (a =? c_p))%N.
  - destruct (x <? 12) eqn:E; [apply Z.ltb_lt in E|]; lia.
  - destruct (x =? 12); lia.
Qed.

End MatchFacts.

(** X7.  Whatever string [parseTime] accepts, the hour and the minute that
    it hands to [setHours] are read off a time text that stands in the
    trimmed string: the minute is the number its two minute digits spell and
    the hour is the number its hour digits spell, turned into the 24-hour
    clock by the period.  Nothing checks them against the clock: all that
    holds of them is that they lie between 0 and 99. *)
Theorem parseClock_reads_digits (s : jsstring) (h m : Z) :
  parseClock s = Some (h, m) ->
  exists pre hs ms ws a l post,
    trim s = pre ++ (hs ++ [c_colon] ++ ms ++ ws ++ [a; l]) ++ post
    /\ (length hs = 1 \/ length hs = 2)%nat /\ forallb isDigit hs = true
    /\ length ms = 2%nat /\ forallb isDigit ms = true
    /\ forallb isWhiteSpace ws = true
    /\ isMeridiemLetter a = true /\ isLetterM l = true
    /\ h = to24 (parseInt hs) a /\ m = parseInt ms
    /\ 0 <= h <= 99 /\ 0 <= m <= 99.
Proof.
  unfold parseClock. destruct (isEmpty s); [discriminate|].
  destruct (timeMatch (trim s)) as [[[hs ms] ap]|] eqn:M; [|discriminate].
  destruct (timeMatch_groups _ _ _ _ M) as (Hh & Hd & Hlen & Hmi).
  apply timeMatch_text in M as (pre & ws & a & l & post & -> & E & Hws & Ha & Hl).
  destruct (period_is_PM a l Ha Hl) as [-> ->].
  pose proof (parseInt_bound hs Hh Hd) as Bh.
  pose proof (parseInt_bound ms (or_intror Hlen) Hmi) as Bm.
  intros H.
  assert (Eh : h = to24 (parseInt hs) a).
  { injection H as <- _. unfold to24.
    destruct ((a =? c_P) || (a =? c_p))%N; cbn [negb andb]; [|reflexivity].
    now destruct (parseInt hs <? 12). }
  assert (Em : m = parseInt ms) by (now injection H as _ <-).
  exists pre, hs, ms, ws, a, l, post.
  split; [exact E|]. do 7 (split; [assumption|]).
  split; [exact Eh|]. split; [exact Em|].
  rewrite Eh, Em. split; [now apply to24_bound | exact Bm].
Qed.

Lemma parseClock_reads_digits_witness :
  parseClock (lit "Lunch 99:99 PM sharp") = Some (99, 99)
  /\ exists pre hs ms ws a l post,
       trim (lit "Lunch 99:99 PM sharp")
       = pre ++ (hs ++ [c_colon] ++ ms ++ ws ++ [a; l]) ++ post
       /\ 99 = to24 (parseInt hs) a /\ 99 = parseInt ms.
Proof.
  assert (H : parseClock (lit "Lunch 99:99 PM sharp") = Some (99, 99))
    by reflexivity.
  split; [exact H|].
  destruct (parseClock_reads_digits _ _ _ H)
    as (pre & hs & ms & ws & a & l & post & E & _ & _ & _ & _ & _ & _ & _
        & Eh & Em & _).
  exists pre, hs, ms, ws, a, l, post.
  split; [exact E|]. split; [exact Eh | exact Em].
Defined.

(** X8.  White space around a time string changes nothing, so the start
    time the progress highlight reads from the trimmed first part of a block
    time is the start time the reminder check reads from the untrimmed
    part. *)
Theorem start_time_agrees (today : Z) :
  (forall s, parseTime today (trim s) = parseTime today s)
  /\ (forall block, fst (renderTimes today block) = startTimeOf today block).
Proof.
  split; [apply parseTime_trim|].
  intros block. unfold renderTimes, startTimeOf.
  destruct (split [c_dash] (time block)) as [|p0 [|p1 rest]]; cbn [map fst];
    [reflexivity | apply parseTime_trim | apply parseTime_trim].
Qed.

(** ** The deep copy *)

Section CopyFacts.

Implicit Types (s : Schedule) (b : ScheduleBlock) (l : list entry).

Lemma withTasks_same b : withTasks b (tasks b) = b.
Proof. now destruct b. Qed.

Lemma jsonEntry_idem e : jsonEntry (jsonEntry e) = jsonEntry e.
Proof. now destruct e. Qed.

Lemma jsonEntry_defined e : e <> Undefined -> jsonEntry e = e.
Proof. destruct e; [reflexivity | contradiction | reflexivity]. Qed.

Lemma jsonEntries_defined l :
  Forall (fun e => e <> Undefined) l -> map jsonEntry l = l.
Proof.
  induction 1 as [|e l He _ IH]; [reflexivity|]. cbn [map].
  now rewrite jsonEntry_defined, IH.
Qed.

Lemma jsonEntries_no_undefined l :
  Forall (fun e => e <> Undefined) (map jsonEntry l).
Proof.
  induction l as [|e l IH]; constructor; [|exact IH]. now destruct e.
Qed.

Lemma jsonCopy_defined s : noUndefined s -> jsonCopy s = s.
Proof.
  induction 1 as [|b s Hb _ IH]; [reflexivity|]. cbn [jsonCopy map].
  fold (jsonCopy s). rewrite IH. f_equal. unfold jsonBlock.
  rewrite jsonEntries_defined by exact Hb. apply withTasks_same.
Qed.

Lemma jsonCopy_no_undefined s : noUndefined (jsonCopy s).
Proof.
  induction s as [|b s IH]; constructor; [|exact IH].
  apply jsonEntries_no_undefined.
Qed.

Lemma jsonCopy_idem s : jsonCopy (jsonCopy s) = jsonCopy s.
Proof. apply jsonCopy_defined, jsonCopy_no_undefined. Qed.

Lemma cleanBlock_no_undefined b :
  cleanBlock b -> Forall (fun e => e <> Undefined) (tasks b).
Proof.
  intros (_ & _ & H). eapply Forall_impl; [exact H|].
  intros e (t & -> & _). discriminate.
Qed.

Lemma cleanBlock_allPresent b : cleanBlock b -> allPresent (tasks b).
Proof.
  intros (_ & _ & H). eapply Forall_impl; [exact H|].
  intros e (t & -> & _). eauto.
Qed.

Lemma noUndefined_setTasksAt i l s :
  Forall (fun e => e <> Undefined) l -> noUndefined s ->
  noUndefined (setTasksAt i l s).
Proof.
  intros Hl Hs. unfold setTasksAt. destruct (s !! i) as [b|] eqn:E; [|exact Hs].
  unfold noUndefined. apply Forall_insert; [exact Hs | exact Hl].
Qed.

Lemma findBlock_same_ids blockId s s' :
  map id s = map id s' -> findBlock blockId s = findBlock blockId s'.
Proof.
  revert s'. induction s as [|b s IH]; intros [|b' s'] H; try discriminate;
    [reflexivity|].
  injection H as Hb H. cbn [findBlock]. rewrite Hb, (IH s' H). reflexivity.
Qed.

Lemma setTasksAt_twice i l l' s :
  setTasksAt i l (setTasksAt i l' s) = setTasksAt i l s.
Proof.
  unfold setTasksAt at 2. destruct (s !! i) as [b|] eqn:E.
  - unfold setTasksAt, Schedule in *.
    rewrite list_lookup_insert_eq by (now apply lookup_lt_Some in E).
    rewrite E. now rewrite list_insert_insert_eq.
  - reflexivity.
Qed.

End CopyFacts.

(** X9.  The deep copy that the editing handlers take changes a schedule
    only where a task list holds an undefined entry: copying twice is
    copying once, a copy holds no undefined entry, a schedule without
    undefined entries is its own copy, and so is every schedule the parser
    returns. *)
Theorem jsonCopy_fixed_points :
  (forall s, jsonCopy (jsonCopy s) = jsonCopy s)
  /\ (forall s, noUndefined (jsonCopy s))
  /\ (forall s, noUndefined s -> jsonCopy s = s)
  /\ (forall content,
         exists bs, parsePlannerContent content = Ok bs /\ jsonCopy bs = bs).
Proof.
  split; [apply jsonCopy_idem|]. split; [apply jsonCopy_no_undefined|].
  split; [apply jsonCopy_defined|].
  intros content. destruct (parsePlannerContent_ok content) as (bs & H & _).
  exists bs. split; [exact H|]. apply jsonCopy_defined.
  eapply Forall_impl; [exact (parsePlannerContent_clean _ _ H)|].
  apply cleanBlock_no_undefined.
Qed.

Lemma jsonCopy_fixed_points_witness :
  noUndefined twoBlocks /\ jsonCopy twoBlocks = twoBlocks.
Proof.
  assert (H : noUndefined twoBlocks).
  { repeat constructor; discriminate. }
  split; [exact H|].
  destruct jsonCopy_fixed_points as (_ & _ & F & _). exact (F _ H).
Defined.

(** ** Deleting and editing *)

Section EditFacts.

Implicit Types (s : Schedule) (b : ScheduleBlock) (l : list entry).

Lemma filterIndexed_keep_all {A} (p : A -> nat -> bool) k (l : list A) :
  (forall x idx, (k <= idx)%nat -> p x idx = true) -> filterIndexed p k l = l.
Proof.
  revert k. induction l as [|x l IH]; intros k H; [reflexivity|].
  cbn [filterIndexed]. rewrite H by lia. f_equal. apply IH.
  intros y idx Hidx. apply H. lia.
Qed.

Lemma filterIndexed_delete {A} (l : list A) i k :
  filterIndexed (fun _ idx => negb (Z.of_nat idx =? Z.of_nat (k + i))) k l
  = delete i l.
Proof.
  revert i k. induction l as [|x l IH]; intros i k; [reflexivity|].
  cbn [filterIndexed]. destruct i as [|i].
  - rewrite Nat.add_0_r, Z.eqb_refl. cbn [negb delete list_delete].
    apply filterIndexed_keep_all. intros y idx Hidx.
    apply negb_true_iff, Z.eqb_neq. lia.
  - replace (Z.of_nat k =? Z.of_nat (k + S i)) with false
      by (symmetry; apply Z.eqb_neq; lia).
    cbn [negb delete list_delete]. f_equal.
    replace (k + S i)%nat with (S k + i)%nat by lia. apply IH.
Qed.

Lemma delete_beyond {A} (l : list A) i : (length l <= i)%nat -> delete i l = l.
Proof.
  intros H. rewrite delete_take_drop, take_ge, drop_ge by lia.
  apply app_nil_r.
Qed.

Lemma deleteTask_at s blockId i :
  deleteTask blockId (Z.of_nat i) (Some s)
  = Some (map (fun b => if id b =? blockId
                        then withTasks b (delete i (tasks b)) else b) s).
Proof.
  cbn [deleteTask]. f_equal. apply map_ext. intros b.
  destruct (id b =? blockId); [|reflexivity]. f_equal.
  apply (filterIndexed_delete (tasks b) i 0).
Qed.

Lemma map_fixed {A} (f : A -> A) (l : list A) :
  Forall (fun x => f x = x) l -> map f l = l.
Proof. induction 1 as [|x l Hx _ IH]; cbn [map]; [|rewrite Hx, IH]; reflexivity. Qed.

Lemma map_lookup_block (f : ScheduleBlock -> ScheduleBlock) s k b :
  s !! k = Some b -> map f s !! k = Some (f b).
Proof.
  revert k. induction s as [|x s IH]; intros [|k] H; try discriminate.
  - now injection H as ->.
  - now apply IH.
Qed.

End EditFacts.

(** X10.  [deleteTask] removes the task at the index from every block with
    the id, so that the later tasks move one place to the front, and gives
    all other blocks back as they are; with a negative index, an index
    beyond the tasks, or an id that no block has, the schedule comes back
    unchanged. *)
Theorem deleteTask_removes_exactly (s : Schedule) (blockId : Z) :
  (forall i,
      deleteTask blockId (Z.of_nat i) (Some s)
      = Some (map (fun b => if id b =? blockId
                            then withTasks b (delete i (tasks b)) else b) s))
  /\ (forall z, z < 0 -> deleteTask blockId z (Some s) = Some s)
  /\ (forall i,
         Forall (fun b => id b = blockId -> (length (tasks b) <= i)%nat) s ->
         deleteTask blockId (Z.of_nat i) (Some s) = Some s)
  /\ (findBlock blockId s = None ->
      forall z, deleteTask blockId z (Some s) = Some s).
Proof.
  split; [apply deleteTask_at|]. split; [|split].
  - intros z Hz. cbn [deleteTask]. f_equal. apply map_fixed, Forall_forall.
    intros b _. destruct (id b =? blockId); [|reflexivity].
    rewrite filterIndexed_keep_all; [apply withTasks_same|].
    intros x idx _. apply negb_true_iff, Z.eqb_neq. lia.
  - intros i H. rewrite deleteTask_at. f_equal. apply map_fixed.
    eapply Forall_impl; [exact H|]. intros b Hb. cbn beta.
    destruct (Z.eqb_spec (id b) blockId) as [E|_]; [|reflexivity].
    rewrite delete_beyond by auto. apply withTasks_same.
  - intros H z. apply findBlock_None in H. cbn [deleteTask]. f_equal.
    apply map_fixed. eapply Forall_impl; [exact H|]. intros b Hb. cbn beta.
    now destruct (Z.eqb_spec (id b) blockId).
Qed.

Lemma deleteTask_removes_exactly_witness :
  -1 < 0
  /\ Forall (fun b => id b = 1 -> (length (tasks b) <= 5)%nat) twoBlocks
  /\ findBlock 9 twoBlocks = None
  /\ deleteTask 1 (-1) (Some twoBlocks) = Some twoBlocks
  /\ deleteTask 1 5 (Some twoBlocks) = Some twoBlocks
  /\ deleteTask 9 0 (Some twoBlocks) = Some twoBlocks.
Proof.
  assert (H1 : -1 < 0) by lia.
  assert (H2 : Forall (fun b => id b = 1 -> (length (tasks b) <= 5)%nat)
                      twoBlocks)
    by (repeat constructor; cbn; lia).
  assert (H3 : findBlock 9 twoBlocks = None) by reflexivity.
  destruct (deleteTask_removes_exactly twoBlocks 1) as (_ & A & B & _).
  destruct (deleteTask_removes_exactly twoBlocks 9) as (_ & _ & _ & C).
  split; [exact H1|]. split; [exact H2|]. split; [exact H3|].
  split; [exact (A _ H1)|]. split; [exact (B 5%nat H2) | exact (C H3 0)].
Defined.

Section UpdateFacts.

Implicit Types (s : Schedule) (b : ScheduleBlock) (l : list entry).

Lemma list_lookup_fmap_map {A B} (f : A -> B) (l : list A) i :
  map f l !! i = f <$> l !! i.
Proof. exact (list_lookup_fmap f l i). Qed.

Lemma arrayGet_nat {A} (l : list A) i : arrayGet l (Z.of_nat i) = l !! i.
Proof.
  unfold arrayGet. replace (Z.of_nat i <? 0) with false
    by (symmetry; apply Z.ltb_ge; lia).
  now rewrite Nat2Z.id.
Qed.

Lemma arrayGet_Some {A} (l : list A) z x :
  arrayGet l z = Some x -> 0 <= z /\ l !! Z.to_nat z = Some x.
Proof.
  unfold arrayGet. destruct (z <? 0) eqn:E; [discriminate|].
  apply Z.ltb_ge in E. auto.
Qed.

(** [updateTask] once the block and the task are known. *)
Lemma updateTask_found change blockId z s k t :
  findBlock blockId s = Some k ->
  arrayGet (tasksAt k s) z = Some (Present t) ->
  updateTask change blockId z (Some s)
  = Some (setTasksAt k
            (<[Z.to_nat z := Present (change t)]> (map jsonEntry (tasksAt k s)))
            (jsonCopy s)).
Proof.
  intros Hk Ht. unfold updateTask. rewrite findBlock_jsonCopy, Hk.
  rewrite tasksAt_jsonCopy.
  apply arrayGet_Some in Ht as [Hz Ht].
  unfold arrayGet. replace (z <? 0) with false
    by (symmetry; apply Z.ltb_ge; lia).
  rewrite list_lookup_fmap_map, Ht. reflexivity.
Qed.

Lemma updateTask_missed change blockId z s :
  (forall k t, findBlock blockId s = Some k ->
               arrayGet (tasksAt k s) z <> Some (Present t)) ->
  updateTask change blockId z (Some s) = Some (jsonCopy s).
Proof.
  intros H. unfold updateTask. rewrite findBlock_jsonCopy.
  destruct (findBlock blockId s) as [k|] eqn:Hk; [|reflexivity].
  rewrite tasksAt_jsonCopy.
  destruct (arrayGet (map jsonEntry (tasksAt k s)) z) as [[t| |]|] eqn:G;
    try reflexivity.
  exfalso. apply (H k t eq_refl).
  apply arrayGet_Some in G as [Hz G]. unfold arrayGet.
  replace (z <? 0) with false by (symmetry; apply Z.ltb_ge; lia).
  rewrite list_lookup_fmap_map in G.
  destruct (tasksAt k s !! Z.to_nat z) as [[t'| |]|]; try discriminate G.
  exact G.
Qed.

End UpdateFacts.

Section ComposeEdits.

Implicit Types (s : Schedule) (b : ScheduleBlock) (l : list entry).

Lemma arrayGet_jsonEntry_Present l z t :
  arrayGet (map jsonEntry l) z = Some (Present t) ->
  arrayGet l z = Some (Present t).
Proof.
  unfold arrayGet. destruct (z <? 0); [discriminate|].
  rewrite list_lookup_fmap_map.
  destruct (l !! Z.to_nat z) as [[t'| |]|]; try discriminate.
  intros H. exact H.
Qed.

Lemma task_hit_or_missed blockId z s :
  (exists k t, findBlock blockId s = Some k
               /\ arrayGet (tasksAt k s) z = Some (Present t))
  \/ (forall k t, findBlock blockId s = Some k ->
                  arrayGet (tasksAt k s) z <> Some (Present t)).
Proof.
  destruct (findBlock blockId s) as [k|]; [|right; discriminate].
  destruct (arrayGet (tasksAt k s) z) as [[t| |]|] eqn:G;
    [left; eauto | right .. ]; intros k' t' [= <-]; rewrite G; discriminate.
Qed.

Lemma updateTask_fusion c1 c2 blockId z cur :
  updateTask c2 blockId z (updateTask c1 blockId z cur)
  = updateTask (fun t => c2 (c1 t)) blockId z cur.
Proof.
  destruct cur as [s|]; [|reflexivity].
  destruct (task_hit_or_missed blockId z s) as [(k & t & Hk & G) | Miss].
  - rewrite (updateTask_found c1 _ _ _ _ _ Hk G).
    rewrite (updateTask_found (fun t => c2 (c1 t)) _ _ _ _ _ Hk G).
    destruct (findBlock_Some _ _ _ Hk) as (bk & Ek & _).
    apply arrayGet_Some in G as [Hz G].
    set (n := Z.to_nat z) in *.
    set (L := map jsonEntry (tasksAt k s)).
    set (L1 := <[n := Present (c1 t)]> L).
    set (s1 := setTasksAt k L1 (jsonCopy s)).
    assert (Ck : jsonCopy s !! k = Some (jsonBlock bk))
      by (rewrite jsonCopy_lookup; unfold Schedule in *; now rewrite Ek).
    assert (Ln : (n < length L)%nat).
    { unfold L. rewrite length_map. now apply lookup_lt_Some in G. }
    assert (D1 : Forall (fun e => e <> Undefined) L1).
    { unfold L1. apply Forall_insert; [apply jsonEntries_no_undefined|].
      discriminate. }
    assert (T1 : tasksAt k s1 = L1)
      by (unfold s1; now apply tasksAt_setTasksAt_eq with (b := jsonBlock bk)).
    assert (F1 : findBlock blockId s1 = Some k).
    { rewrite <- Hk. apply findBlock_same_ids. unfold s1.
      now rewrite setTasksAt_ids, jsonCopy_ids. }
    assert (G1 : arrayGet (tasksAt k s1) z = Some (Present (c1 t))).
    { rewrite T1. unfold arrayGet.
      replace (z <? 0) with false by (symmetry; apply Z.ltb_ge; lia).
      fold n. unfold L1. now apply list_lookup_insert_eq. }
    rewrite (updateTask_found c2 _ _ _ _ _ F1 G1). fold n.
    rewrite T1, (jsonEntries_defined _ D1).
    rewrite (jsonCopy_defined s1)
      by (unfold s1; apply noUndefined_setTasksAt;
          [exact D1 | apply jsonCopy_no_undefined]).
    unfold s1, L1. now rewrite setTasksAt_twice, list_insert_insert_eq.
  - rewrite !(updateTask_missed _ _ _ _ Miss).
    rewrite updateTask_missed; [now rewrite jsonCopy_idem|].
    intros k t Hk G. rewrite findBlock_jsonCopy in Hk.
    rewrite tasksAt_jsonCopy in G.
    apply arrayGet_jsonEntry_Present in G. exact (Miss k t Hk G).
Qed.

End ComposeEdits.

(** X11.  After a task is deleted, an edit of the text at the same index of
    the same block acts on the task that moved up into that index: it gets
    the new text and keeps its own notes. *)
Theorem delete_then_update_acts_on_next
    (s : Schedule) (blockId : Z) (k i : nat) (t : Task) (newText : jsstring) :
  findBlock blockId s = Some k ->
  tasksAt k s !! S i = Some (Present t) ->
  exists new,
    updateTaskText blockId (Z.of_nat i) newText
      (deleteTask blockId (Z.of_nat i) (Some s)) = Some new
    /\ tasksAt k new !! i = Some (Present (mkTask newText (notes t))).
Proof.
  intros Hk Ht. rewrite deleteTask_at.
  set (f := fun b => if id b =? blockId
                     then withTasks b (delete i (tasks b)) else b).
  set (s1 := map f s).
  destruct (findBlock_Some _ _ _ Hk) as (bk & Ek & Idk).
  assert (F1 : findBlock blockId s1 = Some k).
  { rewrite <- Hk. apply findBlock_same_ids.
    pose proof (deleteTask_ids blockId (Z.of_nat i) (Some s)) as I.
    rewrite deleteTask_at in I. now injection I. }
  assert (E1 : s1 !! k = Some (withTasks bk (delete i (tasks bk)))).
  { unfold s1. rewrite (map_lookup_block f s k bk Ek). unfold f.
    now rewrite Idk, Z.eqb_refl. }
  assert (T1 : tasksAt k s1 = delete i (tasks bk))
    by (now rewrite (tasksAt_lookup s1 k _ E1)).
  rewrite (tasksAt_lookup s k bk Ek) in Ht.
  assert (G1 : arrayGet (tasksAt k s1) (Z.of_nat i) = Some (Present t)).
  { rewrite arrayGet_nat, T1, list_lookup_delete_ge by lia. exact Ht. }
  unfold updateTaskText. rewrite (updateTask_found _ _ _ _ _ _ F1 G1).
  eexists. split; [reflexivity|]. rewrite Nat2Z.id.
  assert (C1 : jsonCopy s1 !! k
               = Some (jsonBlock (withTasks bk (delete i (tasks bk)))))
    by (rewrite jsonCopy_lookup; unfold Schedule in *; now rewrite E1).
  rewrite (tasksAt_setTasksAt_eq _ _ _ _ C1).
  apply list_lookup_insert_eq. rewrite length_map, T1.
  rewrite arrayGet_nat, T1 in G1. now apply lookup_lt_Some in G1.
Qed.

Lemma delete_then_update_acts_on_next_witness :
  findBlock 1 twoBlocks = Some 0%nat
  /\ tasksAt 0 twoBlocks !! 1%nat = Some (Present checkMail)
  /\ exists new,
       updateTaskText 1 0 (lit "Read mail")
         (deleteTask 1 0 (Some twoBlocks)) = Some new
       /\ tasksAt 0 new !! 0%nat
          = Some (Present (mkTask (lit "Read mail") (notes checkMail))).
Proof.
  split; [reflexivity|]. split; [reflexivity|].
  exact (delete_then_update_acts_on_next twoBlocks 1 0 0 checkMail
           (lit "Read mail") eq_refl eq_refl).
Defined.

(** X12.  Edits of one task compose: of two text edits the later one
    stands, of two note edits the later one stands, and a text edit and a
    note edit give the same schedule in either order. *)
Theorem task_edits_compose (cur : option Schedule) (blockId taskIndex : Z) :
  (forall t1 t2,
      updateTaskText blockId taskIndex t2
        (updateTaskText blockId taskIndex t1 cur)
      = updateTaskText blockId taskIndex t2 cur)
  /\ (forall n1 n2,
         updateTaskNotes blockId taskIndex n2
           (updateTaskNotes blockId taskIndex n1 cur)
         = updateTaskNotes blockId taskIndex n2 cur)
  /\ (forall t n,
         updateTaskNotes blockId taskIndex n
           (updateTaskText blockId taskIndex t cur)
         = updateTaskText blockId taskIndex t
             (updateTaskNotes blockId taskIndex n cur)).
Proof.
  unfold updateTaskText, updateTaskNotes.
  repeat split; intros; rewrite !updateTask_fusion; reflexivity.
Qed.

(** ** Moving a task that exists *)

Section MoveFacts.

Implicit Types (s : Schedule) (b : ScheduleBlock) (l : list entry).

Lemma spliceRemoveOne_inside {A} z (l : list A) x :
  0 <= z -> l !! Z.to_nat z = Some x ->
  spliceRemoveOne z l = ([x], delete (Z.to_nat z) l).
Proof.
  intros Hz Hx. unfold spliceRemoveOne.
  pose proof (lookup_lt_Some _ _ _ Hx) as Hlt.
  rewrite relativeStart_inside by lia.
  rewrite (drop_S _ _ _ Hx), delete_take_drop. reflexivity.
Qed.

Lemma spliceInsert_inside {A} z (x : A) (l : list A) :
  0 <= z <= Z.of_nat (length l) ->
  spliceInsert z x l = take (Z.to_nat z) l ++ x :: drop (Z.to_nat z) l.
Proof. intros H. unfold spliceInsert. now rewrite relativeStart_inside. Qed.

Lemma insert_back {A} (l : list A) n x :
  l !! n = Some x ->
  take n (delete n l) ++ x :: drop n (delete n l) = l.
Proof.
  intros H. pose proof (lookup_lt_Some _ _ _ H) as Hlt.
  rewrite delete_take_drop.
  rewrite take_app_length' by (rewrite length_take; lia).
  rewrite drop_app_length' by (rewrite length_take; lia).
  now apply take_drop_middle.
Qed.

Lemma delete_inserted {A} (l : list A) m x :
  (m <= length l)%nat -> delete m (take m l ++ x :: drop m l) = l.
Proof.
  intros H.
  replace m with (length (take m l)) at 1 by (rewrite length_take; lia).
  rewrite delete_middle. apply take_drop.
Qed.

Lemma lookup_inserted {A} (l : list A) m x :
  (m <= length l)%nat -> (take m l ++ x :: drop m l) !! m = Some x.
Proof.
  intros H. rewrite lookup_app_r by (rewrite length_take; lia).
  rewrite length_take. now replace (m - m `min` length l)%nat with 0%nat by lia.
Qed.

(** The schedule after a move of an entry that exists, piece by piece. *)
Lemma reorderTask_inside source destination s i j e :
  findBlock (blockId source) s = Some i ->
  findBlock (blockId destination) s = Some j ->
  arrayGet (tasksAt i s) (taskIndex source) = Some e ->
  let n := Z.to_nat (taskIndex source) in
  let afterRemoval :=
    setTasksAt i (delete n (map jsonEntry (tasksAt i s))) (jsonCopy s) in
  reorderTask source destination (Some s)
  = Some (setTasksAt j
            (spliceInsert (taskIndex destination) (jsonEntry e)
               (tasksAt j afterRemoval))
            afterRemoval).
Proof.
  intros Hi Hj G n afterRemoval.
  rewrite (reorderTask_found _ _ _ _ _ Hi Hj). cbv zeta.
  rewrite tasksAt_jsonCopy. apply arrayGet_Some in G as [Hz G].
  rewrite (spliceRemoveOne_inside _ _ (jsonEntry e) Hz)
    by (rewrite list_lookup_fmap_map; now rewrite G).
  reflexivity.
Qed.

End MoveFacts.



(** X15.  Dropping a task on its own place gives the deep copy of the
    schedule: nothing moves. *)
Theorem reorderTask_onto_itself
    (s : Schedule) (place : TaskRef) (i : nat) (e : entry) :
  findBlock (blockId place) s = Some i ->
  arrayGet (tasksAt i s) (taskIndex place) = Some e ->
  reorderTask place place (Some s) = Some (jsonCopy s).
Proof.
  intros Hi G.
  rewrite (reorderTask_inside _ _ _ _ _ _ Hi Hi G). cbv zeta.
  destruct (findBlock_Some _ _ _ Hi) as (bi & Ei & _).
  apply arrayGet_Some in G as [Hz G].
  set (n := Z.to_nat (taskIndex place)) in *.
  set (lc := map jsonEntry (tasksAt i s)).
  assert (Gc : lc !! n = Some (jsonEntry e))
    by (unfold lc; rewrite list_lookup_fmap_map; now rewrite G).
  assert (Ln : (n < length lc)%nat) by now apply lookup_lt_Some in Gc.
  assert (Ld : length (delete n lc) = (length lc - 1)%nat)
    by (apply length_delete; eauto).
  assert (Ci : jsonCopy s !! i = Some (jsonBlock bi))
    by (rewrite jsonCopy_lookup; unfold Schedule in *; now rewrite Ei).
  rewrite (tasksAt_setTasksAt_eq _ _ _ _ Ci).
  rewrite spliceInsert_inside by lia. fold n.
  rewrite (insert_back _ _ _ Gc), setTasksAt_twice.
  unfold lc. rewrite <- tasksAt_jsonCopy. now rewrite setTasksAt_same.
Qed.

Lemma reorderTask_onto_itself_witness :
  findBlock 1 twoBlocks = Some 0%nat
  /\ arrayGet (tasksAt 0 twoBlocks) 1 = Some (Present checkMail)
  /\ reorderTask (mkRef 1 1) (mkRef 1 1) (Some twoBlocks)
     = Some (jsonCopy twoBlocks).
Proof.
  do 2 (split; [reflexivity|]).
  exact (reorderTask_onto_itself twoBlocks (mkRef 1 1) 0 (Present checkMail)
           eq_refl eq_refl).
Defined.

Lemma noUndefined_tasksAt (s : Schedule) k :
  noUndefined s -> Forall (fun e => e <> Undefined) (tasksAt k s).
Proof.
  intros H. unfold tasksAt. destruct (s !! k) as [b|] eqn:E; [|constructor].
  unfold noUndefined in H. rewrite Forall_forall in H. apply H.
  eapply list_elem_of_lookup_2, E.
Qed.

(** X16.  A move can be taken back: moving the task from where it landed
    to where it came from gives the deep copy of the schedule before the
    move.  The destination index has to lie within the destination block as
    it is once the task is taken out. *)
Theorem reorderTask_undo
    (s : Schedule) (source destination : TaskRef) (i j : nat) (e : entry) :
  findBlock (blockId source) s = Some i ->
  findBlock (blockId destination) s = Some j ->
  arrayGet (tasksAt i s) (taskIndex source) = Some e ->
  0 <= taskIndex destination
    <= Z.of_nat (if decide (i = j) then Nat.pred (length (tasksAt j s))
                 else length (tasksAt j s)) ->
  reorderTask destination source
    (reorderTask source destination (Some s))
  = Some (jsonCopy s).
Proof.
  intros Hi Hj G Hd.
  rewrite (reorderTask_inside _ _ _ _ _ _ Hi Hj G). cbv zeta.
  destruct (findBlock_Some _ _ _ Hi) as (bi & Ei & _).
  destruct (findBlock_Some _ _ _ Hj) as (bj & Ej & _).
  pose proof G as G0. apply arrayGet_Some in G as [Hz G].
  set (n := Z.to_nat (taskIndex source)) in *.
  set (m := Z.to_nat (taskIndex destination)) in *.
  set (x := jsonEntry e).
  set (lc := map jsonEntry (tasksAt i s)).
  assert (Gc : lc !! n = Some x)
    by (unfold lc; rewrite list_lookup_fmap_map; now rewrite G).
  assert (Ln : (n < length lc)%nat) by now apply lookup_lt_Some in Gc.
  assert (Ld : length (delete n lc) = (length lc - 1)%nat)
    by (apply length_delete; eauto).
  assert (Lc : length lc = length (tasksAt i s)) by apply length_map.
  assert (Ci : jsonCopy s !! i = Some (jsonBlock bi))
    by (rewrite jsonCopy_lookup; unfold Schedule in *; now rewrite Ei).
  set (afterRemoval := setTasksAt i (delete n lc) (jsonCopy s)).
  assert (Aj : exists bj', afterRemoval !! j = Some bj').
  { apply lookup_lt_is_Some_2. unfold afterRemoval.
    rewrite setTasksAt_length, jsonCopy_length.
    unfold Schedule in *. now apply lookup_lt_Some in Ej. }
  destruct Aj as [bj' Aj].
  set (D := tasksAt j afterRemoval).
  assert (LD : length D = if decide (i = j) then Nat.pred (length (tasksAt j s))
                          else length (tasksAt j s)).
  { unfold D, afterRemoval. destruct (decide (i = j)) as [<-|Hij].
    - rewrite (tasksAt_setTasksAt_eq _ _ _ _ Ci). lia.
    - rewrite tasksAt_setTasksAt_ne by exact Hij.
      now rewrite tasksAt_jsonCopy, length_map. }
  assert (Hm : (m <= length D)%nat) by (rewrite LD; lia).
  rewrite spliceInsert_inside by (rewrite LD; lia). fold m.
  set (X := take m D ++ x :: drop m D).
  set (new := setTasksAt j X afterRemoval).
  assert (NA : noUndefined afterRemoval).
  { unfold afterRemoval. apply noUndefined_setTasksAt;
      [|apply jsonCopy_no_undefined].
    unfold lc. rewrite delete_take_drop. apply Forall_app.
    split; [apply Forall_take | apply Forall_drop];
      apply jsonEntries_no_undefined. }
  assert (DX : Forall (fun e => e <> Undefined) X).
  { pose proof (noUndefined_tasksAt afterRemoval j NA) as HD. fold D in HD.
    unfold X. apply Forall_app. split; [now apply Forall_take|].
    constructor; [unfold x; now destruct e | now apply Forall_drop]. }
  assert (NN : noUndefined new)
    by (unfold new; now apply noUndefined_setTasksAt).
  assert (Nj : tasksAt j new = X)
    by (unfold new; now apply tasksAt_setTasksAt_eq with (b := bj')).
  assert (Fj : findBlock (blockId destination) new = Some j).
  { rewrite <- Hj. apply findBlock_same_ids. unfold new, afterRemoval.
    now rewrite !setTasksAt_ids, jsonCopy_ids. }
  assert (Fi : findBlock (blockId source) new = Some i).
  { rewrite <- Hi. apply findBlock_same_ids. unfold new, afterRemoval.
    now rewrite !setTasksAt_ids, jsonCopy_ids. }
  assert (GX : arrayGet (tasksAt j new) (taskIndex destination) = Some x).
  { rewrite Nj. unfold arrayGet.
    replace (taskIndex destination <? 0) with false
      by (symmetry; apply Z.ltb_ge; lia).
    fold m. unfold X. now apply lookup_inserted. }
  rewrite (reorderTask_inside _ _ _ _ _ _ Fj Fi GX). cbv zeta. fold m.
  rewrite (jsonCopy_defined new NN), Nj, (jsonEntries_defined X DX).
  assert (DXm : delete m X = D) by (unfold X; now apply delete_inserted).
  rewrite DXm.
  replace (jsonEntry x) with x by (unfold x; now destruct e).
  assert (Back : setTasksAt j D new = afterRemoval).
  { unfold new. rewrite setTasksAt_twice. apply setTasksAt_same. }
  rewrite Back.
  unfold afterRemoval at 1. rewrite (tasksAt_setTasksAt_eq _ _ _ _ Ci).
  rewrite spliceInsert_inside by lia. fold n.
  rewrite (insert_back _ _ _ Gc). unfold afterRemoval.
  rewrite setTasksAt_twice. unfold lc. rewrite <- tasksAt_jsonCopy.
  now rewrite setTasksAt_same.
Qed.

Lemma reorderTask_undo_witness :
  findBlock 1 twoBlocks = Some 0%nat
  /\ findBlock 2 twoBlocks = Some 1%nat
  /\ arrayGet (tasksAt 0 twoBlocks) 0 = Some (Present packLunch)
  /\ reorderTask (mkRef 2 1) (mkRef 1 0)
       (reorderTask (mkRef 1 0) (mkRef 2 1) (Some twoBlocks))
     = Some (jsonCopy twoBlocks).
Proof.
  do 3 (split; [reflexivity|]).
  exact (reorderTask_undo twoBlocks (mkRef 1 0) (mkRef 2 1) 0 1
           (Present packLunch) eq_refl eq_refl eq_refl
           ltac:(vm_compute; split; discriminate)).
Defined.

(** ** Composite keys *)

Section KeyFacts.

Lemma lit_inj s1 s2 : lit s1 = lit s2 -> s1 = s2.
Proof.
  unfold lit. intros H.
  assert (E : list_ascii_of_string s1 = list_ascii_of_string s2).
  { revert H. generalize (list_ascii_of_string s1) (list_ascii_of_string s2).
    induction l as [|a l IH]; intros [|a' l'] H; try discriminate;
      [reflexivity|].
    injection H as Ha Hl. f_equal; [|now apply IH].
    rewrite <- (ascii_N_embedding a), <- (ascii_N_embedding a'). now f_equal. }
  rewrite <- (string_of_list_ascii_of_string s1),
          <- (string_of_list_ascii_of_string s2). now f_equal.
Qed.

Lemma pretty_N_char_digit x : isDigit (N_of_ascii (pretty_N_char x)) = true.
Proof. unfold pretty_N_char. repeat case_match; reflexivity. Qed.

Lemma pretty_N_go_digits x (s : string) :
  forallb isDigit (lit s) = true ->
  forallb isDigit (lit (pretty_N_go x s)) = true.
Proof.
  revert s. induction (N.lt_wf_0 x) as [x _ IH]; intros s Hs.
  assert (x = 0 \/ 0 < x)%N as [->|Hx] by lia.
  - now rewrite pretty_N_go_0.
  - rewrite pretty_N_go_step by exact Hx. apply IH.
    + now apply N.div_lt.
    + unfold lit. cbn [list_ascii_of_string map forallb].
      rewrite pretty_N_char_digit. exact Hs.
Qed.

Lemma pretty_N_digits (x : N) : forallb isDigit (lit (pretty x)) = true.
Proof.
  unfold pretty, pretty_N. case_decide; [reflexivity|].
  now apply pretty_N_go_digits.
Qed.

Lemma numberToString_digits z :
  0 <= z -> forallb isDigit (numberToString z) = true.
Proof.
  intros Hz. unfold numberToString. destruct z as [|p|p]; [reflexivity| |lia].
  exact (pretty_N_digits (Npos p)).
Qed.

Lemma digits_no_dash s : forallb isDigit s = true -> c_dash ∉ s.
Proof.
  intros H Hin. rewrite forallb_forall in H.
  apply list_elem_of_In in Hin. discriminate (H _ Hin).
Qed.

Lemma first_occurrence_unique {A} (x : A) (u u' v v' : list A) :
  x ∉ u -> x ∉ u' -> u ++ x :: v = u' ++ x :: v' -> u = u' /\ v = v'.
Proof.
  revert u'. induction u as [|a u IH]; intros [|a' u'] Hu Hu' E; cbn [app] in E.
  - now injection E.
  - injection E as -> _. exfalso. apply Hu'. left.
  - injection E as -> _. exfalso. apply Hu. left.
  - injection E as -> E.
    destruct (IH u') as [-> ->]; auto.
    + intros H. apply Hu. now right.
    + intros H. apply Hu'. now right.
Qed.

Lemma last_occurrence_unique {A} (x : A) (u u' v v' : list A) :
  x ∉ v -> x ∉ v' -> u ++ x :: v = u' ++ x :: v' -> u = u' /\ v = v'.
Proof.
  intros Hv Hv' E. apply (f_equal (@rev A)) in E.
  rewrite !rev_app_distr in E. cbn [rev] in E. rewrite <- !app_assoc in E.
  cbn [app] in E.
  apply first_occurrence_unique in E as [E1 E2].
  - split; [now apply rev_inj in E2 | now apply rev_inj in E1].
  - intros H. apply Hv. apply list_elem_of_In. apply in_rev.
    now apply list_elem_of_In.
  - intros H. apply Hv'. apply list_elem_of_In. apply in_rev.
    now apply list_elem_of_In.
Qed.

Lemma numberToString_inj z z' : numberToString z = numberToString z' -> z = z'.
Proof.
  unfold numberToString. intros H. apply lit_inj in H.
  now apply (inj pretty) in H.
Qed.

Lemma taskId_inj b i b' i' : taskId b i = taskId b' i' -> b = b' /\ i = i'.
Proof.
  unfold taskId. cbn [app]. intros H.
  apply last_occurrence_unique in H as [Hb Hi].
  - apply numberToString_inj in Hb. apply numberToString_inj in Hi.
    split; [exact Hb | lia].
  - apply digits_no_dash, numberToString_digits. lia.
  - apply digits_no_dash, numberToString_digits. lia.
Qed.

Lemma filterIndexed_ext {A} (p q : A -> nat -> bool) k (l : list A) :
  (forall x idx, p x idx = q x idx) -> filterIndexed p k l = filterIndexed q k l.
Proof.
  intros H. revert k. induction l as [|x l IH]; intros k; [reflexivity|].
  cbn [filterIndexed]. now rewrite H, IH.
Qed.

Lemma filterIndexed_shorter {A} (p : A -> nat -> bool) k (l : list A) :
  (length (filterIndexed p k l) <= length l)%nat.
Proof.
  revert k. induction l as [|x l IH]; intros k; [reflexivity|].
  cbn [filterIndexed]. specialize (IH (S k)).
  destruct (p x k); cbn [length]; lia.
Qed.

Lemma isCompleted_toggled st b i b' i' :
  isCompleted (completedTasks (handleToggleTask b i st)) b' i'
  = if decide (b' = b /\ i' = i)
    then negb (isCompleted (completedTasks st) b i)
    else isCompleted (completedTasks st) b' i'.
Proof.
  unfold handleToggleTask. cbn [completedTasks]. unfold isCompleted at 1.
  rewrite lookup_insert. destruct (decide (taskId b i = taskId b' i')) as [E|N].
  - apply taskId_inj in E as [-> ->]. now rewrite decide_True.
  - rewrite decide_False; [reflexivity|]. intros [-> ->]. now apply N.
Qed.

End KeyFacts.

(** X17.  The composite key of the completion map tells tasks apart: two
    keys are equal only for the same block id and the same index. *)
Theorem taskId_injective (b b' : Z) (i i' : nat) :
  taskId b i = taskId b' i' <-> b = b' /\ i = i'.
Proof.
  split; [apply taskId_inj|]. now intros [-> ->].
Qed.

Lemma taskId_injective_witness :
  taskId 1 12 <> taskId 11 2.
Proof.
  intros H. apply (proj1 (taskId_injective 1 11 12 2)) in H as [H _].
  discriminate H.
Defined.

(** X18.  Ticking a task flips the completion flag of that task and of no
    other, and leaves the schedule alone; ticking the same task twice
    brings every flag back to what it was. *)
Theorem handleToggleTask_flips_one (st : AppState) (b : Z) (i : nat) :
  schedule (handleToggleTask b i st) = schedule st
  /\ isCompleted (completedTasks (handleToggleTask b i st)) b i
     = negb (isCompleted (completedTasks st) b i)
  /\ (forall b' i',
         (b', i') <> (b, i) ->
         isCompleted (completedTasks (handleToggleTask b i st)) b' i'
         = isCompleted (completedTasks st) b' i')
  /\ (forall b' i',
         isCompleted
           (completedTasks (handleToggleTask b i (handleToggleTask b i st)))
           b' i'
         = isCompleted (completedTasks st) b' i').
Proof.
  split; [reflexivity|]. split; [|split].
  - rewrite isCompleted_toggled. now rewrite decide_True.
  - intros b' i' Hne. rewrite isCompleted_toggled.
    rewrite decide_False; [reflexivity|]. intros [-> ->]. now apply Hne.
  - intros b' i'. rewrite !isCompleted_toggled.
    rewrite (decide_True (P := b = b /\ i = i)) by auto.
    destruct (decide (b' = b /\ i' = i)) as [[-> ->]|_]; [|reflexivity].
    apply negb_involutive.
Qed.

Lemma handleToggleTask_flips_one_witness :
  (2, 0%nat) <> (1, 0%nat)
  /\ isCompleted
       (completedTasks (handleToggleTask 1 0 (mkApp None ∅ false None))) 2 0
     = isCompleted ∅ 2 0.
Proof.
  assert (H : (2, 0%nat) <> (1, 0%nat)) by discriminate.
  split; [exact H|].
  destruct (handleToggleTask_flips_one (mkApp None ∅ false None) 1 0)
    as (_ & _ & A & _).
  exact (A 2 0%nat H).
Defined.

(** X19.  Ticking one task while no task is flagged and then clearing the
    completed tasks gives the schedule that deleting that task gives. *)
Theorem toggle_then_clear_is_delete (st : AppState) (b : Z) (i : nat) :
  (forall b' i', isCompleted (completedTasks st) b' i' = false) ->
  schedule (handleClearCompletedTasks (handleToggleTask b i st))
  = deleteTask b (Z.of_nat i) (schedule st).
Proof.
  intros Hclean. unfold handleClearCompletedTasks. cbn [schedule].
  change (schedule (handleToggleTask b i st)) with (schedule st).
  destruct (schedule st) as [s|]; [|reflexivity].
  cbn [clearCompletedTasks deleteTask]. f_equal. apply map_ext. intros blk.
  destruct (Z.eqb_spec (id blk) b) as [E|N].
  - f_equal. apply filterIndexed_ext. intros _ idx.
    rewrite isCompleted_toggled, !Hclean. cbn [negb].
    destruct (decide (id blk = b /\ idx = i)) as [[_ ->]|Hn].
    + now rewrite Z.eqb_refl.
    + cbn [negb]. symmetry. apply negb_true_iff, Z.eqb_neq.
      intros H. apply Hn. split; [exact E | lia].
  - rewrite filterIndexed_keep_all; [apply withTasks_same|].
    intros _ idx _. rewrite isCompleted_toggled, !Hclean.
    rewrite decide_False; [reflexivity|]. intros [H _]. now apply N.
Qed.

Lemma toggle_then_clear_is_delete_witness :
  (forall b' i', isCompleted (∅ : gmap jsstring bool) b' i' = false)
  /\ schedule (handleClearCompletedTasks
                 (handleToggleTask 1 0 (mkApp (Some twoBlocks) ∅ false None)))
     = deleteTask 1 0 (Some twoBlocks).
Proof.
  assert (H : forall b' i',
             isCompleted (∅ : gmap jsstring bool) b' i' = false).
  { intros b' i'. unfold isCompleted. now rewrite lookup_empty. }
  split; [exact H|].
  exact (toggle_then_clear_is_delete (mkApp (Some twoBlocks) ∅ false None)
           1 0 H).
Defined.

Lemma taskCount_cons b (s : Schedule) :
  taskCount (b :: s) = (length (tasks b) + taskCount s)%nat.
Proof. reflexivity. Qed.

Lemma taskCount_map_le (f : ScheduleBlock -> ScheduleBlock) (s : Schedule) :
  (forall b, (length (tasks (f b)) <= length (tasks b))%nat) ->
  (taskCount (map f s) <= taskCount s)%nat.
Proof.
  intros H. induction s as [|b s IH]; [reflexivity|].
  cbn [map]. rewrite !taskCount_cons. specialize (H b). lia.
Qed.

(** X20.  Clearing never adds a task and keeps the number of blocks; with
    an empty completion map it gives the schedule back as it is, so that
    clearing a second time changes nothing. *)
Theorem clearing_only_removes :
  (forall completed (s : Schedule),
      exists new,
        clearCompletedTasks completed (Some s) = Some new
        /\ length new = length s
        /\ (taskCount new <= taskCount s)%nat)
  /\ (forall cur, clearCompletedTasks ∅ cur = cur)
  /\ (forall st,
         handleClearCompletedTasks (handleClearCompletedTasks st)
         = handleClearCompletedTasks st).
Proof.
  assert (E : forall cur, clearCompletedTasks ∅ cur = cur).
  { intros [s|]; [|reflexivity]. cbn [clearCompletedTasks]. f_equal.
    apply map_fixed, Forall_forall. intros blk _.
    rewrite filterIndexed_keep_all; [apply withTasks_same|].
    intros _ idx _. unfold isCompleted. now rewrite lookup_empty. }
  split; [|split; [exact E|]].
  - intros completed s. eexists. split; [reflexivity|].
    split; [apply length_map|].
    apply taskCount_map_le. intros blk. cbn [withTasks tasks].
    apply filterIndexed_shorter.
  - intros st. unfold handleClearCompletedTasks. cbn [schedule completedTasks
      isLoading error]. now rewrite E.
Qed.

(** X21.  After [handleGenerate] the completion map is empty and loading is
    off, whatever the outcome.  When the service delivers text, the schedule
    is the parse of that text and no error is shown, a parse error is never
    the message; when the service fails, there is no schedule and the
    message of the failure is shown. *)
Theorem handleGenerate_outcome (st : AppState) :
  (forall g,
      completedTasks (handleGenerate g st) = ∅
      /\ isLoading (handleGenerate g st) = false)
  /\ (forall content,
         exists bs,
           parsePlannerContent content = Ok bs
           /\ schedule (handleGenerate (Generated content) st) = Some bs
           /\ error (handleGenerate (Generated content) st) = None)
  /\ (forall m,
         schedule (handleGenerate (Failed m) st) = None
         /\ error (handleGenerate (Failed m) st) = Some (ErrorMessage m)).
Proof.
  split; [|split].
  - intros [content|m]; unfold handleGenerate, generateFinish, generateStart;
      [destruct (parsePlannerContent content)|]; split; reflexivity.
  - intros content. destruct (parsePlannerContent_ok content) as (bs & H & _).
    exists bs. split; [exact H|].
    unfold handleGenerate, generateFinish. rewrite H. split; reflexivity.
  - intros m. split; reflexivity.
Qed.

(** ** Runs of the reminder check *)

Section RunFacts.

Implicit Types (d : Display) (b : ScheduleBlock) (f : firing).

Lemma checkBlock_due today now lead (notified : gset Z) b startTime :
  startTimeOf today b = Some startTime ->
  id b ∉ notified ->
  startTime - lead * 60 * 1000 <= now < startTime ->
  checkBlock today now lead notified b
  = Some (mkFiring (id b) (notificationFor lead b)).
Proof.
  intros Hs Hn Hw. unfold checkBlock. rewrite Hs.
  rewrite bool_decide_eq_false_2 by exact Hn. cbn [negb].
  replace (startTime - lead * 60 * 1000 <=? now) with true
    by (symmetry; apply Z.leb_le; lia).
  replace (now <? startTime) with true by (symmetry; apply Z.ltb_lt; lia).
  reflexivity.
Qed.

Lemma fired_ids_sublist today now lead (notified : gset Z) (l : Schedule) :
  map firedId (omap (checkBlock today now lead notified) l)
    `sublist_of` map id l.
Proof.
  induction l as [|b l IH]; [constructor|]. cbn [omap list_omap map].
  destruct (checkBlock today now lead notified b) as [f|] eqn:E.
  - apply checkBlock_Some in E as [<- _]. cbn [map]. now constructor.
  - now constructor.
Qed.

Lemma tick_fired_ids_sublist today now d :
  map firedId (fst (tick today now d)) `sublist_of` map id (blocks d).
Proof.
  unfold tick. destruct (armed d); cbn [fst].
  - apply fired_ids_sublist.
  - apply sublist_nil_l.
Qed.

Lemma run_ticks_once d evs :
  NoDup (map id (blocks d)) ->
  Forall (fun ev => exists today now, ev = Tick today now) evs ->
  NoDup (map firedId (fst (run d evs)))
  /\ forall f, f ∈ fst (run d evs) -> firedId f ∉ notifiedBlockIds d.
Proof.
  intros Hids Hev. revert d Hids.
  induction Hev as [|ev evs (today & now & ->) _ IH]; intros d Hids.
  - split; [constructor | intros f Hf; now apply elem_of_nil in Hf].
  - cbn [run step].
    pose proof (tick_fires_in_window today now d) as Win.
    pose proof (tick_marks_fired today now d) as Marks.
    pose proof (tick_fired_ids_sublist today now d) as Sub.
    destruct (tick_keeps_setup today now d) as (Hb & _ & _ & Hsub).
    destruct (tick today now d) as [f1 d1]. cbn [fst snd] in *.
    destruct (IH d1) as [N2 Out2]; [now rewrite Hb|].
    destruct (run d1 evs) as [f2 d2]. cbn [fst snd] in *.
    split.
    + rewrite map_app. apply NoDup_app. split; [|split; [|exact N2]].
      * exact (sublist_NoDup _ _ Hids Sub).
      * intros x Hx Hx2.
        apply list_elem_of_fmap in Hx as (g1 & -> & Hg1).
        apply list_elem_of_fmap in Hx2 as (g2 & E & Hg2).
        apply (Out2 g2 Hg2). rewrite <- E. now apply Marks.
    + intros f Hf. apply elem_of_app in Hf as [Hf|Hf].
      * destruct (Win f Hf) as (b & _ & -> & Hn & _). exact Hn.
      * intros Hin. apply (Out2 f Hf). now apply Hsub.
Qed.

Lemma edited_keeps_settings g d :
  reminderTime (edited g d) = reminderTime d
  /\ permissionGranted (edited g d) = permissionGranted d.
Proof.
  unfold edited. destruct (g (Some (blocks d))); split; reflexivity.
Qed.

Lemma step_keeps_settings d ev :
  reminderTime (snd (step d ev)) = reminderTime d
  /\ permissionGranted (snd (step d ev)) = permissionGranted d.
Proof.
  destruct ev; cbn [step snd]; try apply edited_keeps_settings.
  - destruct (tick_keeps_setup today now d) as (_ & ? & ? & _). auto.
  - destruct (findBlock (blockId source) (jsonCopy (blocks d))),
             (findBlock (blockId destination) (jsonCopy (blocks d)));
      cbn [snd]; try apply edited_keeps_settings; auto.
Qed.

Lemma step_silent_when_off d ev :
  reminderTime d = 0 \/ permissionGranted d = false ->
  fst (step d ev) = [].
Proof.
  intros Hoff. destruct ev; cbn [step fst]; try reflexivity.
  - unfold tick, armed.
    destruct Hoff as [-> | ->]; cbn; rewrite ?andb_false_r; reflexivity.
  - now destruct (findBlock (blockId source) (jsonCopy (blocks d))),
                 (findBlock (blockId destination) (jsonCopy (blocks d))).
Qed.

Lemma renderTimes_start today b :
  fst (renderTimes today b) = startTimeOf today b.
Proof.
  unfold renderTimes, startTimeOf.
  destruct (split [c_dash] (time b)) as [|p0 [|p1 rest]]; cbn [map fst];
    [reflexivity | apply parseTime_trim | apply parseTime_trim].
Qed.

End RunFacts.

(** X22.  With reminders on and permission granted, a check that lands in
    the window of a block that has not been notified fires for that block,
    with the notification made from its title and first task. *)
Theorem tick_fires_when_due
    (today now : Z) (d : Display) (b : ScheduleBlock) (startTime : Z) :
  reminderTime d <> 0 -> permissionGranted d = true ->
  b ∈ blocks d -> id b ∉ notifiedBlockIds d ->
  startTimeOf today b = Some startTime ->
  startTime - reminderTime d * 60 * 1000 <= now < startTime ->
  mkFiring (id b) (notificationFor (reminderTime d) b)
    ∈ fst (tick today now d).
Proof.
  intros Hr Hp Hb Hn Hs Hw. unfold tick.
  assert (A : armed d = true).
  { unfold armed. rewrite Hp.
    replace (reminderTime d =? 0) with false
      by (symmetry; now apply Z.eqb_neq).
    destruct (blocks d); [now apply elem_of_nil in Hb | reflexivity]. }
  rewrite A. cbn [fst]. apply list_elem_of_omap. exists b.
  split; [exact Hb|]. now apply checkBlock_due with (startTime := startTime).
Qed.

Lemma tick_fires_when_due_witness :
  mkFiring 0 (notificationFor 5 workBlock)
    ∈ fst (tick 0 ((8 * 60 + 56) * 60000) (mount [workBlock] 5 true)).
Proof.
  apply (tick_fires_when_due 0 ((8 * 60 + 56) * 60000)
           (mount [workBlock] 5 true) workBlock (9 * 3600000)).
  - discriminate.
  - reflexivity.
  - left.
  - apply not_elem_of_empty.
  - reflexivity.
  - cbn. lia.
Defined.

(** X23.  As long as nothing but interval checks happens, a schedule with
    distinct block ids gets at most one notification per block, however
    many checks run; every schedule that the parser returns has distinct
    block ids. *)
Theorem ticks_notify_each_block_once :
  (forall d evs,
      NoDup (map id (blocks d)) ->
      Forall (fun ev => exists today now, ev = Tick today now) evs ->
      NoDup (map firedId (fst (run d evs))))
  /\ (forall content,
         exists bs, parsePlannerContent content = Ok bs /\ NoDup (map id bs)).
Proof.
  split.
  - intros d evs Hids Hev. now apply run_ticks_once.
  - intros content. destruct (parsePlannerContent_ok content) as (bs & H & E).
    exists bs. split; [exact H|]. rewrite E.
    change (NoDup (Z.of_nat <$> seq 0 (length (fragments content)))).
    apply NoDup_fmap_2; [apply _ | apply NoDup_seq].
Qed.

Lemma ticks_notify_each_block_once_witness :
  NoDup (map firedId
           (fst (run (mount [workBlock] 5 true)
                     [Tick 0 ((8 * 60 + 56) * 60000);
                      Tick 0 ((8 * 60 + 57) * 60000)]))).
Proof.
  destruct ticks_notify_each_block_once as [A _].
  apply A.
  - cbn. apply NoDup_singleton.
  - repeat constructor; eauto.
Defined.

(** X24.  With the reminder time set to zero, or without the permission to
    notify, no sequence of checks and edits ever produces a notification. *)
Theorem reminders_off_never_fire (d : Display) (evs : list event) :
  reminderTime d = 0 \/ permissionGranted d = false ->
  fst (run d evs) = [].
Proof.
  revert d. induction evs as [|ev evs IH]; intros d Hoff; [reflexivity|].
  cbn [run].
  pose proof (step_silent_when_off d ev Hoff) as S.
  destruct (step_keeps_settings d ev) as [Hr Hp].
  destruct (step d ev) as [f1 d1]. cbn [fst snd] in *.
  assert (Hoff1 : reminderTime d1 = 0 \/ permissionGranted d1 = false)
    by (rewrite Hr, Hp; exact Hoff).
  specialize (IH d1 Hoff1).
  destruct (run d1 evs) as [f2 d2]. cbn [fst] in *. now rewrite S, IH.
Qed.

Lemma reminders_off_never_fire_witness :
  fst (run (mount [workBlock] 0 true)
           [Tick 0 ((8 * 60 + 56) * 60000);
            UpdateTaskText 0 0 (lit "Draft report");
            Tick 0 ((8 * 60 + 59) * 60000)]) = [].
Proof.
  apply reminders_off_never_fire. left. reflexivity.
Defined.

(** X25.  A block is never announced as upcoming at an instant at which the
    display highlights it as the current block: the reminder window ends
    where the highlight begins. *)
Theorem fired_block_is_not_current (today now : Z) (d : Display) (f : firing) :
  f ∈ fst (tick today now d) ->
  exists b,
    b ∈ blocks d /\ firedId f = id b /\ isCurrent today now b = false.
Proof.
  intros Hf.
  destruct (tick_fires_in_window today now d f Hf)
    as (b & Hb & Hid & _ & startTime & Hs & Hw).
  exists b. split; [exact Hb|]. split; [exact Hid|].
  unfold isCurrent. pose proof (renderTimes_start today b) as R.
  destruct (renderTimes today b) as [[st|] [en|]]; try reflexivity.
  cbn [fst] in R. rewrite <- R in Hs. injection Hs as ->.
  replace (startTime <=? now) with false
    by (symmetry; apply Z.leb_gt; lia).
  reflexivity.
Qed.

Lemma fired_block_is_not_current_witness :
  mkFiring 0 (notificationFor 5 workBlock)
    ∈ fst (tick 0 ((8 * 60 + 56) * 60000) (mount [workBlock] 5 true))
  /\ exists b,
       b ∈ blocks (mount [workBlock] 5 true)
       /\ 0 = id b
       /\ isCurrent 0 ((8 * 60 + 56) * 60000) b = false.
Proof.
  assert (H : mkFiring 0 (notificationFor 5 workBlock)
                ∈ fst (tick 0 ((8 * 60 + 56) * 60000)
                            (mount [workBlock] 5 true)))
    by (vm_compute; left).
  split; [exact H|].
  exact (fired_block_is_not_current 0 _ _ _ H).
Defined.

(** ** Calendar stamps and file names *)

Section StampFacts.

Lemma pad_two_places n :
  0 <= n <= 99 ->
  exists a b, pad n = [a; b] /\ isDigit a = true /\ isDigit b = true
              /\ parseInt [a; b] = n.
Proof.
  intros Hn.
  assert (All : forallb padReadsBack (seqZ 0 100) = true)
    by (vm_compute; reflexivity).
  rewrite forallb_forall in All.
  assert (Hin : In n (seqZ 0 100)) by (apply list_elem_of_In, elem_of_seqZ; lia).
  specialize (All n Hin). unfold padReadsBack in All.
  destruct (pad n) as [|a [|b [|? ?]]]; try discriminate All.
  apply andb_true_iff in All as [All E]. apply andb_true_iff in All as [Ha Hb].
  apply Z.eqb_eq in E. eauto 6.
Qed.

Lemma year_four_places y :
  1000 <= y <= 9999 ->
  exists a b c d,
    numberToString y = [a; b; c; d]
    /\ forallb isDigit [a; b; c; d] = true /\ parseInt [a; b; c; d] = y.
Proof.
  intros Hy.
  assert (All : forallb yearReadsBack (seqZ 1000 9000) = true)
    by (vm_compute; reflexivity).
  rewrite forallb_forall in All.
  assert (Hin : In y (seqZ 1000 9000))
    by (apply list_elem_of_In, elem_of_seqZ; lia).
  specialize (All y Hin). unfold yearReadsBack in All.
  destruct (numberToString y) as [|a [|b [|c [|d [|? ?]]]]];
    try discriminate All.
  apply andb_true_iff in All as [All E]. apply Z.eqb_eq in E.
  exists a, b, c, d. split; [reflexivity|]. split; [|exact E].
  cbn [forallb]. rewrite andb_true_r. rewrite <- !andb_assoc in All.
  exact All.
Qed.

Lemma taskTexts_present l :
  allPresent l -> exists texts, taskTexts l = Ok texts.
Proof.
  induction 1 as [|e l [t ->] _ [texts IH]]; [now exists []|].
  cbn [taskTexts]. rewrite IH. cbn [rbind]. eauto.
Qed.

Lemma taskTexts_absent l e :
  e ∈ l -> e = Undefined \/ e = Null -> taskTexts l = Throw TypeError.
Proof.
  intros Hin He. induction l as [|x l IH]; [now apply elem_of_nil in Hin|].
  apply elem_of_cons in Hin as [<- | Hin].
  - destruct He as [-> | ->]; reflexivity.
  - cbn [taskTexts]. destruct x as [t| |]; try reflexivity.
    now rewrite (IH Hin).
Qed.

Lemma not_allPresent l :
  ~ allPresent l -> exists e, e ∈ l /\ (e = Undefined \/ e = Null).
Proof.
  induction l as [|x l IH]; intros H; [exfalso; apply H; constructor|].
  destruct x as [t| |].
  - destruct IH as (e & He & Hk).
    + intros Hl. apply H. constructor; [eauto | exact Hl].
    + exists e. split; [now right | exact Hk].
  - exists Undefined. split; [left | now left].
  - exists Null. split; [left | now right].
Qed.

Lemma parseTime_Some_contains today s date :
  parseTime today s = Some date -> containsTime s.
Proof.
  unfold parseTime. destruct (parseClock s) as [[h m]|] eqn:E; [|discriminate].
  intros _. apply parseClock_Some_iff. eauto.
Qed.

End StampFacts.

(** X26.  For a date whose UTC year has four places, the calendar stamp has
    the fixed shape of four year digits, two month digits, two day digits,
    the letter T, two digits each for hours, minutes and seconds, and the
    letter Z; and the digits read back as the fields, the month counted
    from 1. *)
Theorem formatToICSDate_shape (date : UtcFields) :
  fitsStamp date ->
  exists y1 y2 y3 y4 m1 m2 d1 d2 h1 h2 n1 n2 s1 s2,
    formatToICSDate date
    = [y1; y2; y3; y4; m1; m2; d1; d2; 84%N; h1; h2; n1; n2; s1; s2; 90%N]
    /\ forallb isDigit [y1; y2; y3; y4; m1; m2; d1; d2; h1; h2; n1; n2; s1; s2]
       = true
    /\ parseInt [y1; y2; y3; y4] = utcFullYear date
    /\ parseInt [m1; m2] = utcMonth date + 1
    /\ parseInt [d1; d2] = utcDate date
    /\ parseInt [h1; h2] = utcHours date
    /\ parseInt [n1; n2] = utcMinutes date
    /\ parseInt [s1; s2] = utcSeconds date.
Proof.
  intros (Hy & Hm & Hd & Hh & Hn & Hs). unfold formatToICSDate.
  destruct (year_four_places _ Hy) as (y1 & y2 & y3 & y4 & -> & Dy & Py).
  destruct (pad_two_places (utcMonth date + 1)) as (m1 & m2 & -> & M1 & M2 & Pm);
    [lia|].
  destruct (pad_two_places (utcDate date)) as (d1 & d2 & -> & D1 & D2 & Pd);
    [lia|].
  destruct (pad_two_places (utcHours date)) as (h1 & h2 & -> & H1 & H2 & Ph);
    [lia|].
  destruct (pad_two_places (utcMinutes date)) as (n1 & n2 & -> & N1 & N2 & Pn);
    [lia|].
  destruct (pad_two_places (utcSeconds date)) as (s1 & s2 & -> & S1 & S2 & Ps);
    [lia|].
  exists y1, y2, y3, y4, m1, m2, d1, d2, h1, h2, n1, n2, s1, s2.
  split; [reflexivity|]. split; [|auto 10].
  change (forallb isDigit ([y1; y2; y3; y4]
                           ++ [m1; m2; d1; d2; h1; h2; n1; n2; s1; s2]) = true).
  rewrite forallb_app, Dy. cbn [forallb andb].
  now rewrite M1, M2, D1, D2, H1, H2, N1, N2, S1, S2.
Qed.

Lemma formatToICSDate_shape_witness :
  fitsStamp (mkUtc 2026 10 2 9 0 0)
  /\ formatToICSDate (mkUtc 2026 10 2 9 0 0) = lit "20261102T090000Z".
Proof.
  assert (H : fitsStamp (mkUtc 2026 10 2 9 0 0)).
  { unfold fitsStamp. cbn. lia. }
  split; [exact H|].
  destruct (formatToICSDate_shape _ H) as (? & ? & ? & ? & ? & ? & ? & ? & ?
    & ? & ? & ? & ? & ? & E & _).
  reflexivity.
Defined.

(** X27.  The file name of an export is made of letters, digits and
    underscores only, followed by the extension; it keeps the length of the
    title, keeps every letter and digit in its place, and cleaning a clean
    title changes nothing. *)
Theorem sanitize_properties (ttl : jsstring) :
  length (sanitize ttl) = length ttl
  /\ Forall (fun c => isAlphaNumeric c = true \/ c = c_underscore)
            (sanitize ttl)
  /\ (forall i c, ttl !! i = Some c -> isAlphaNumeric c = true ->
                  sanitize ttl !! i = Some c)
  /\ sanitize (sanitize ttl) = sanitize ttl.
Proof.
  split; [apply length_map|]. split; [|split].
  - induction ttl as [|c ttl IH]; constructor; [|exact IH].
    destruct (isAlphaNumeric c) eqn:E; auto.
  - intros i c Hi Hc. revert i Hi.
    induction ttl as [|x ttl IH]; intros [|i] Hi; try discriminate Hi.
    + injection Hi as ->. cbn [sanitize map]. now rewrite Hc.
    + now apply IH.
  - induction ttl as [|c ttl IH]; [reflexivity|]. cbn [sanitize map].
    fold (sanitize ttl). fold (sanitize (sanitize ttl)). rewrite IH. f_equal.
    destruct (isAlphaNumeric c) eqn:E; [now rewrite E | reflexivity].
Qed.

Lemma sanitize_properties_witness :
  lit "Work: Deep Focus" !! 0%nat = Some 87%N
  /\ isAlphaNumeric 87%N = true
  /\ sanitize (lit "Work: Deep Focus") !! 0%nat = Some 87%N
  /\ sanitize (lit "Work: Deep Focus") = lit "Work__Deep_Focus".
Proof.
  do 2 (split; [reflexivity|]). split; [|reflexivity].
  destruct (sanitize_properties (lit "Work: Deep Focus")) as (_ & _ & A & _).
  exact (A 0%nat 87%N eq_refl eq_refl).
Defined.

(** X28.  The calendar export is refused exactly when the block time,
    split at the dash, has no second part, or its first or its second part
    holds no time text; when it is not refused, it hands out a file named
    after the title if every task entry is a task, and throws if an
    undefined or null entry sits among the tasks. *)
Theorem handleAddToCalendar_outcome
    (utc : Z -> UtcFields) (today uidNow stampNow : Z) (block : ScheduleBlock) :
  (handleAddToCalendar utc today uidNow stampNow block = Ok Rejected
   <-> ~ (exists p0 p1 rest,
             split [c_dash] (time block) = p0 :: p1 :: rest
             /\ containsTime p0 /\ containsTime p1))
  /\ (handleAddToCalendar utc today uidNow stampNow block <> Ok Rejected ->
      (allPresent (tasks block) ->
       exists file,
         handleAddToCalendar utc today uidNow stampNow block
         = Ok (Downloaded file)
         /\ fileName file = sanitize (title block) ++ lit ".ics")
      /\ (~ allPresent (tasks block) ->
          handleAddToCalendar utc today uidNow stampNow block
          = Throw TypeError)).
Proof.
  unfold handleAddToCalendar.
  destruct (split [c_dash] (time block)) as [|p0 [|p1 rest]] eqn:S;
    cbn [map].
  - split; [|intros H; now contradiction H].
    split; [intros _ (? & ? & ? & [=] & _) | reflexivity].
  - split.
    + split; [intros _ (? & ? & ? & [=] & _)|].
      now destruct (parseTime today p0).
    + intros H. exfalso. apply H. now destruct (parseTime today p0).
  - destruct (parseTime today p0) as [startDate|] eqn:P0.
    + destruct (parseTime today p1) as [endDate|] eqn:P1.
      * split.
        { split.
          - destruct (taskTexts (tasks block)); discriminate.
          - intros H. exfalso. apply H. exists p0, p1, rest.
            split; [reflexivity|].
            split; eapply parseTime_Some_contains; eassumption. }
        intros _. split.
        { intros Hp. destruct (taskTexts_present _ Hp) as [texts ->].
          cbn [rbind]. eexists. split; reflexivity. }
        { intros Hn. apply not_allPresent in Hn as (e & He & Hk).
          now rewrite (taskTexts_absent _ _ He Hk). }
      * split; [|intros H; now contradiction H].
        split; [|reflexivity]. intros _ (q0 & q1 & r & [= <- <- <-] & _ & C).
        apply (parseTime_None_iff today) in P1. contradiction.
    + split; [|intros H; now contradiction H].
      split; [|reflexivity]. intros _ (q0 & q1 & r & [= <- <- <-] & C & _).
      apply (parseTime_None_iff today) in P0. contradiction.
Qed.

Lemma handleAddToCalendar_outcome_witness :
  handleAddToCalendar (fun _ => mkUtc 2026 10 2 9 0 0) 0 5 6 workBlock
    <> Ok Rejected
  /\ allPresent (tasks workBlock)
  /\ exists file,
       handleAddToCalendar (fun _ => mkUtc 2026 10 2 9 0 0) 0 5 6 workBlock
       = Ok (Downloaded file)
       /\ fileName file = sanitize (title workBlock) ++ lit ".ics".
Proof.
  assert (H : handleAddToCalendar (fun _ => mkUtc 2026 10 2 9 0 0) 0 5 6
                workBlock <> Ok Rejected) by (vm_compute; discriminate).
  assert (P : allPresent (tasks workBlock)) by (repeat constructor; eauto).
  split; [exact H|]. split; [exact P|].
  destruct (handleAddToCalendar_outcome (fun _ => mkUtc 2026 10 2 9 0 0)
              0 5 6 workBlock) as [_ A].
  destruct (A H) as [B _]. exact (B P).
Defined.

Section ExportFacts.

Lemma export_present utc today uidNow stampNow b :
  allPresent (tasks b) ->
  exists out, handleAddToCalendar utc today uidNow stampNow b = Ok out.
Proof.
  intros Hp. unfold handleAddToCalendar.
  destruct (map (parseTime today) (split [c_dash] (time b)))
    as [|[startDate|] [|[endDate|] rest]]; eauto.
  destruct (taskTexts_present _ Hp) as [texts ->]. cbn [rbind]. eauto.
Qed.

Lemma export_absent_cases utc today uidNow stampNow b e :
  e ∈ tasks b -> e = Undefined \/ e = Null ->
  (handleAddToCalendar utc today uidNow stampNow b = Throw TypeError
   /\ exists p0 p1 rest,
        split [c_dash] (time b) = p0 :: p1 :: rest
        /\ containsTime p0 /\ containsTime p1)
  \/ (handleAddToCalendar utc today uidNow stampNow b = Ok Rejected
      /\ ~ (exists p0 p1 rest,
               split [c_dash] (time b) = p0 :: p1 :: rest
               /\ containsTime p0 /\ containsTime p1)).
Proof.
  intros He Hk. unfold handleAddToCalendar.
  destruct (split [c_dash] (time b)) as [|p0 [|p1 rest]] eqn:S; cbn [map].
  - right. split; [reflexivity | intros (? & ? & ? & [=] & _)].
  - right. split; [now destruct (parseTime today p0)|].
    intros (? & ? & ? & [=] & _).
  - destruct (parseTime today p0) as [startDate|] eqn:P0.
    + destruct (parseTime today p1) as [endDate|] eqn:P1.
      * left. split; [now rewrite (taskTexts_absent _ _ He Hk)|].
        exists p0, p1, rest. split; [reflexivity|].
        split; eapply parseTime_Some_contains; eassumption.
      * right. split; [reflexivity|].
        intros (q0 & q1 & r & [= <- <- <-] & _ & C).
        apply (parseTime_None_iff today) in P1. contradiction.
    + right. split; [reflexivity|].
      intros (q0 & q1 & r & [= <- <- <-] & C & _).
      apply (parseTime_None_iff today) in P0. contradiction.
Qed.

Lemma reorderTask_beyond source destination (s : Schedule) i j :
  findBlock (blockId source) s = Some i ->
  findBlock (blockId destination) s = Some j ->
  Z.of_nat (length (tasksAt i s)) <= taskIndex source ->
  reorderTask source destination (Some s)
  = Some (setTasksAt j
            (spliceInsert (taskIndex destination) Undefined
               (map jsonEntry (tasksAt j s)))
            (jsonCopy s)).
Proof.
  intros Hi Hj Hb. rewrite (reorderTask_found _ _ _ _ _ Hi Hj). cbv zeta.
  rewrite spliceRemoveOne_beyond
    by (rewrite tasksAt_jsonCopy, length_map; exact Hb).
  cbn [fst snd]. now rewrite setTasksAt_same, tasksAt_jsonCopy.
Qed.

End ExportFacts.

(** X29.  The export of a block that the parser returned never throws: it
    is either refused or hands out a file. *)
Theorem parsed_blocks_export (content : jsstring) :
  exists bs,
    parsePlannerContent content = Ok bs
    /\ forall b utc today uidNow stampNow,
         b ∈ bs ->
         exists out, handleAddToCalendar utc today uidNow stampNow b = Ok out.
Proof.
  destruct (parsePlannerContent_ok content) as (bs & H & _).
  exists bs. split; [exact H|]. intros b utc today uidNow stampNow Hb.
  apply export_present, cleanBlock_allPresent.
  pose proof (parsePlannerContent_clean _ _ H) as C.
  rewrite Forall_forall in C. now apply C.
Qed.

Lemma parsed_blocks_export_witness :
  exists out,
    handleAddToCalendar (fun _ => mkUtc 2026 10 2 9 0 0) 0 5 6
      (mkBlock 0 (lit "7:00 AM - 8:00 AM") (lit "Morning") [])
    = Ok out.
Proof.
  destruct (parsed_blocks_export sampleDocument) as (bs & H & A).
  apply A. vm_compute in H. injection H as <-. left.
Defined.

(** X30.  Right after a move whose source index lies at or beyond the end
    of the source block, the destination block, with its time unchanged,
    holds an undefined entry, and an export of that block hands out no
    file: it throws when the block time, split at the dash, has a first and
    a second part that both hold a time text, and it is refused when that is
    not so. *)
Theorem export_after_empty_move
    (s : Schedule) (source destination : TaskRef) (i j : nat) :
  findBlock (blockId source) s = Some i ->
  findBlock (blockId destination) s = Some j ->
  Z.of_nat (length (tasksAt i s)) <= taskIndex source ->
  exists new b old,
    reorderTask source destination (Some s) = Some new
    /\ new !! j = Some b
    /\ s !! j = Some old
    /\ time b = time old
    /\ Undefined ∈ tasks b
    /\ forall utc today uidNow stampNow,
         (handleAddToCalendar utc today uidNow stampNow b = Throw TypeError
          /\ exists p0 p1 rest,
               split [c_dash] (time old) = p0 :: p1 :: rest
               /\ containsTime p0 /\ containsTime p1)
         \/ (handleAddToCalendar utc today uidNow stampNow b = Ok Rejected
             /\ ~ (exists p0 p1 rest,
                      split [c_dash] (time old) = p0 :: p1 :: rest
                      /\ containsTime p0 /\ containsTime p1)).
Proof.
  intros Hi Hj Hb. rewrite (reorderTask_beyond _ _ _ _ _ Hi Hj Hb).
  destruct (findBlock_Some _ _ _ Hj) as (bj & Ej & _).
  assert (Cj : jsonCopy s !! j = Some (jsonBlock bj))
    by (rewrite jsonCopy_lookup; unfold Schedule in *; now rewrite Ej).
  set (X := spliceInsert (taskIndex destination) Undefined
              (map jsonEntry (tasksAt j s))).
  assert (U : Undefined ∈ X).
  { eapply list_elem_of_lookup_2. unfold X. apply spliceInsert_lookup. }
  exists (setTasksAt j X (jsonCopy s)), (withTasks (jsonBlock bj) X), bj.
  split; [reflexivity|]. split; [now apply setTasksAt_lookup_eq|].
  split; [exact Ej|]. split; [reflexivity|].
  split; [exact U|]. intros utc today uidNow stampNow.
  apply (export_absent_cases utc today uidNow stampNow
           (withTasks (jsonBlock bj) X) Undefined); [exact U | now left].
Qed.

Lemma export_after_empty_move_witness :
  findBlock 1 twoBlocks = Some 0%nat
  /\ findBlock 2 twoBlocks = Some 1%nat
  /\ Z.of_nat (length (tasksAt 0 twoBlocks)) <= 2
  /\ exists new b,
       reorderTask (mkRef 1 2) (mkRef 2 0) (Some twoBlocks) = Some new
       /\ new !! 1%nat = Some b
       /\ Undefined ∈ tasks b
       /\ handleAddToCalendar (fun _ => mkUtc 2026 10 2 9 0 0) 0 5 6 b
          = Throw TypeError.
Proof.
  do 2 (split; [reflexivity|]). split; [cbn; lia|].
  destruct (export_after_empty_move twoBlocks (mkRef 1 2) (mkRef 2 0)
              0%nat 1%nat eq_refl eq_refl ltac:(cbn; lia))
    as (new & b & old & H1 & H2 & _ & _ & H3 & H4).
  exists new, b. split; [exact H1|]. split; [exact H2|]. split; [exact H3|].
  destruct (H4 (fun _ => mkUtc 2026 10 2 9 0 0) 0 5 6) as [[T _] | [R _]];
    [exact T|].
  exfalso. vm_compute in H1. injection H1 as <-.
  vm_compute in H2. injection H2 as <-.
  vm_compute in R. discriminate R.
Defined.

(** X13.  An edit of a task text that finds its task changes that task and
    nothing else: the task gets the new text and keeps its notes, the other
    tasks of the block and the other blocks are as the deep copy leaves
    them; an edit that finds no block with the id, or no task at the index,
    gives the deep copy of the schedule. *)
Theorem updateTaskText_changes_one
    (s : Schedule) (blockId z : Z) (newText : jsstring) :
  (forall k t,
      findBlock blockId s = Some k ->
      arrayGet (tasksAt k s) z = Some (Present t) ->
      exists new,
        updateTaskText blockId z newText (Some s) = Some new
        /\ tasksAt k new !! Z.to_nat z
           = Some (Present (mkTask newText (notes t)))
        /\ (forall n, n <> Z.to_nat z ->
                      tasksAt k new !! n = jsonEntry <$> tasksAt k s !! n)
        /\ (forall k', k' <> k -> new !! k' = jsonBlock <$> s !! k'))
  /\ ((forall k t, findBlock blockId s = Some k ->
                   arrayGet (tasksAt k s) z <> Some (Present t)) ->
      updateTaskText blockId z newText (Some s) = Some (jsonCopy s)).
Proof.
  split; [|apply updateTask_missed].
  intros k t Hk G. unfold updateTaskText.
  rewrite (updateTask_found _ _ _ _ _ _ Hk G).
  destruct (findBlock_Some _ _ _ Hk) as (bk & Ek & _).
  assert (Ck : jsonCopy s !! k = Some (jsonBlock bk))
    by (rewrite jsonCopy_lookup; unfold Schedule in *; now rewrite Ek).
  apply arrayGet_Some in G as [Hz G].
  eexists. split; [reflexivity|].
  rewrite (tasksAt_setTasksAt_eq _ _ _ _ Ck). split; [|split].
  - apply list_lookup_insert_eq. rewrite length_map.
    now apply lookup_lt_Some in G.
  - intros n Hn. rewrite list_lookup_insert_ne by auto.
    apply list_lookup_fmap_map.
  - intros k' Hk'. rewrite setTasksAt_lookup_ne by auto.
    apply jsonCopy_lookup.
Qed.

Lemma updateTaskText_changes_one_witness :
  findBlock 1 twoBlocks = Some 0%nat
  /\ arrayGet (tasksAt 0 twoBlocks) 1 = Some (Present checkMail)
  /\ exists new,
       updateTaskText 1 1 (lit "Read mail") (Some twoBlocks) = Some new
       /\ tasksAt 0 new !! 1%nat
          = Some (Present (mkTask (lit "Read mail") (notes checkMail))).
Proof.
  do 2 (split; [reflexivity|]).
  destruct (updateTaskText_changes_one twoBlocks 1 1 (lit "Read mail"))
    as [A _].
  destruct (A 0%nat checkMail eq_refl eq_refl) as (new & H1 & H2 & _).
  exists new. split; [exact H1 | exact H2].
Defined.
